(** * PersonalFinApi: the backup / restore gateway of [main.py]

    A shallow embedding of the three request handlers of [main.py]
    ([backup], [restore], [health_check]) together with the part of MySQL
    they drive: the three tables created by [init_database], the
    statements [REPLACE INTO], [INSERT ... ON DUPLICATE KEY UPDATE] and
    [SELECT ... ORDER BY date DESC], and the transaction of one connection.
    [init_database] and [startup_event] follow the handlers, over a server
    whose tables may be missing.

    What is taken from MySQL and its driver rather than from [main.py]:
    - tables are InnoDB tables with utf8mb4 text and the server runs in
      strict SQL mode (the defaults since MySQL 5.7 and 8.0): a value that
      does not fit its column makes the statement fail, a failed statement
      leaves the transaction as it was, and [rollback] discards every
      statement since the connection was opened ([mysql.connector] opens
      connections with autocommit off);
    - a commit during which the link breaks has not taken place;
    - the [CREATE TABLE] statements name no collation, so that the key
      columns compare as the default collation of the server has it
      (without regard to case under the defaults of MySQL); the collation
      is a parameter of the tables, and nothing is assumed of it;
    - [ORDER BY date] sorts by the bytes of the UTF-8 text;
    - [REPLACE] deletes every row that collides with the new row on the
      primary key or on a unique index and then inserts the new row;
    - [INSERT ... ON DUPLICATE KEY UPDATE] looks for a colliding row on the
      primary key first and on the unique index second, and updates that one
      row;
    - the names of a statement are resolved before any of its values is
      stored;
    - [connection.cursor()] asks the server whether the connection is alive
      and raises when it is not;
    - requests are served one at a time. *)

From Stdlib Require Import ZArith QArith String Ascii List.
From stdpp Require Import gmap strings list fin_maps sorting pretty.

Close Scope Q_scope.
Local Open Scope Z_scope.

(** ** Python values *)

(** A Python [str] is kept as its UTF-8 bytes; a character is a lead byte
    followed by its continuation bytes (10xxxxxx). *)
Definition is_continuation (a : ascii) : bool :=
  ((128 <=? N_of_ascii a) && (N_of_ascii a <? 192))%N.

Fixpoint char_length (s : string) : nat :=
  match s with
  | EmptyString => 0%nat
  | String a s' => ((if is_continuation a then 0 else 1) + char_length s')%nat
  end.

(** [split_chars n s] cuts [s] after its first [n] characters. *)
Fixpoint split_chars (n : nat) (s : string) : string * string :=
  match s with
  | EmptyString => (EmptyString, EmptyString)
  | String a s' =>
      if is_continuation a then
        let '(keep, rest) := split_chars n s' in (String a keep, rest)
      else
        match n with
        | O => (EmptyString, s)
        | S n' => let '(keep, rest) := split_chars n' s' in (String a keep, rest)
        end
  end.

Fixpoint all_spaces (s : string) : bool :=
  match s with
  | EmptyString => true
  | String a s' => Ascii.eqb a " "%char && all_spaces s'
  end.

(** A Python [float] is kept as the number its SQL literal denotes (the
    driver writes [repr(x)] into the statement), or as one of the three
    values that are no number: [nan], [inf] and [-inf]. *)
Inductive float : Type :=
| Finite (q : Q)
| NaN
| Infinity (negative : bool).

(** ** The pydantic models *)

Module Transaction.
Record t : Type := mk {
  id : string;
  date : string;
  category : string;
  type : string;
  amount : float;
  description : option string;
  created_at : string;
  updated_at : string;
  synced : Z
}.
End Transaction.

Module Budget.
Record t : Type := mk {
  id : string;
  category : string;
  monthly_limit : float;
  created_at : string;
  updated_at : string
}.
End Budget.

Module Category.
Record t : Type := mk {
  id : string;
  name : string;
  type : string;
  created_at : string;
  icon : option string
}.
End Category.

Module BackupData.
Record t : Type := mk {
  transactions : list Transaction.t;
  budgets : list Budget.t;
  categories : list Category.t
}.
End BackupData.

(** ** Failures *)

(** The errors of [mysql.connector]. Those of the server about a value
    carry the column; those about the connection carry the text the driver
    gives them, which depends on the host and on how the link was lost. *)
Inductive MySQLError : Type :=
| DataTooLong (column : string)
| OutOfRange (column : string)
| BadNull (column : string)
| UnknownColumn (name : string)
| ConnectionRefused (msg : string)
| ConnectionLost (msg : string)
| ConnectionNotAvailable.

Definition str_MySQLError (e : MySQLError) : string :=
  match e with
  | DataTooLong c => "1406 (22001): Data too long for column '" +:+ c +:+ "' at row 1"
  | OutOfRange c => "1264 (22003): Out of range value for column '" +:+ c +:+ "' at row 1"
  | BadNull c => "1048 (23000): Column '" +:+ c +:+ "' cannot be null"
  | UnknownColumn n => "1054 (42S22): Unknown column '" +:+ n +:+ "' in 'field list'"
  | ConnectionRefused msg => msg
  | ConnectionLost msg => msg
  | ConnectionNotAvailable => "MySQL Connection not available."
  end.

Inductive Exception : Type :=
| Error (e : MySQLError)
| ValueError (msg : string)
| AttributeError (msg : string)
| HTTPException (status_code : Z) (detail : string).

Definition str_Exception (e : Exception) : string :=
  match e with
  | Error e => str_MySQLError e
  | ValueError msg => msg
  | AttributeError msg => msg
  | HTTPException code detail => pretty code +:+ ": " +:+ detail
  end.

(** ** The schema of [init_database] *)

(** What a statement does with a value bound to a column. *)
Definition fitted (A : Type) : Type := MySQLError + A.

Definition fit_bind {A B : Type} (x : fitted A) (f : A → fitted B) : fitted B :=
  match x with
  | inl e => inl e
  | inr a => f a
  end.

Notation "'fit' x <- c1 ; c2" := (fit_bind c1 (λ x, c2))
  (at level 60, x name, c1 at next level, right associativity).

(** [VARCHAR(n)]: at most [n] characters; spaces beyond the width are cut
    off, anything else beyond it is an error. *)
Definition varchar (n : nat) (column : string) (s : string) : fitted string :=
  if (char_length s <=? n)%nat then inr s
  else
    let '(keep, rest) := split_chars n s in
    if all_spaces rest then inr keep else inl (DataTooLong column).

(** [TEXT]: at most 65535 bytes, NULL allowed; spaces beyond the limit are
    cut off as for [VARCHAR]. *)
Definition text_limit : nat := N.to_nat 65535.

Definition text (column : string) (s : option string) : fitted (option string) :=
  match s with
  | None => inr None
  | Some v =>
      if (String.length v <=? text_limit)%nat then inr (Some v)
      else if all_spaces (String.substring text_limit (String.length v - text_limit) v)
           then inr (Some (String.substring 0 text_limit v))
           else inl (DataTooLong column)
  end.

Definition varchar_null (n : nat) (column : string) (s : option string)
  : fitted (option string) :=
  match s with
  | None => inr None
  | Some v => fit v' <- varchar n column v; inr (Some v')
  end.

(** Rounding to the nearest integer, halves away from zero. *)
Definition round_half_away (q : Q) : Z :=
  let n := Qnum q in
  let d := Z.pos (Qden q) in
  Z.sgn n * ((2 * Z.abs n + d) / (2 * d)).

(** What the driver writes into the statement for a [float]: the digits
    of a number, [NULL] for [nan], and for an infinity the bare word [inf],
    behind a minus sign when it is negative, which the server reads as the
    name of a column and does not find. *)
Definition float_literal (x : float) : fitted (option Q) :=
  match x with
  | Finite q => inr (Some q)
  | NaN => inr None
  | Infinity _ => inl (UnknownColumn "inf")
  end.

(** [DECIMAL(10, 2) NOT NULL], kept in hundredths: the literal is rounded
    to two fractional digits and must then have at most eight integer
    digits. *)
Definition decimal_10_2 (column : string) (x : option Q) : fitted Z :=
  match x with
  | None => inl (BadNull column)
  | Some q =>
      let c := round_half_away (Qmult q (inject_Z 100)) in
      if (Z.abs c <=? 9999999999)%Z then inr c else inl (OutOfRange column)
  end.

(** [INT]: a signed 32-bit integer. *)
Definition int (column : string) (n : Z) : fitted Z :=
  if ((-2147483648 <=? n) && (n <=? 2147483647))%Z then inr n
  else inl (OutOfRange column).

(** A row is kept as its primary key [id] and, under that key, the other
    columns of the table. *)
Module transactions.
Record row : Type := mk {
  date : string;
  category : string;
  type : string;
  amount : Z;
  description : option string;
  created_at : string;
  updated_at : string;
  synced : Z
}.
End transactions.

Module budgets.
Record row : Type := mk {
  category : string;
  monthly_limit : Z;
  created_at : string;
  updated_at : string
}.
End budgets.

Module categories.
Record row : Type := mk {
  name : string;
  type : string;
  icon : option string;
  created_at : string
}.

Definition set_icon (i : option string) (r : row) : row :=
  mk (name r) (type r) i (created_at r).
End categories.

(** The key columns ([id] in the three tables, [budgets.category] and
    [categories.name]) compare under the collation the tables were created
    with. A collation is kept as the function that gives a string its
    weight (MySQL's [WEIGHT_STRING]): two strings are the same key when
    their weights are equal. *)
Definition Collation : Type := string → string.

(** The weights of a collation without regard to case, on the letters of
    ASCII. *)
Definition lower (a : ascii) : ascii :=
  let n := N_of_ascii a in
  if ((65 <=? n) && (n <=? 90))%N then ascii_of_N (n + 32) else a.

Fixpoint case_insensitive (s : string) : string :=
  match s with
  | EmptyString => EmptyString
  | String a s' => String (lower a) (case_insensitive s')
  end.

Record Database : Type := mkDatabase {
  collation : Collation;
  tbl_transactions : gmap string transactions.row;
  tbl_budgets : gmap string budgets.row;
  tbl_categories : gmap string categories.row
}.

Definition empty_database (key : Collation) : Database := mkDatabase key ∅ ∅ ∅.

(** The values of one [VALUES (%s, ...)] tuple: the literals of the
    statement first, then the values column by column in the order of the
    column list. *)
Definition transactions_values (t : Transaction.t)
  : fitted (string * transactions.row) :=
  fit amount_literal <- float_literal (Transaction.amount t);
  fit id <- varchar 36 "id" (Transaction.id t);
  fit date <- varchar 10 "date" (Transaction.date t);
  fit category <- varchar 100 "category" (Transaction.category t);
  fit type <- varchar 10 "type" (Transaction.type t);
  fit amount <- decimal_10_2 "amount" amount_literal;
  fit description <- text "description" (Transaction.description t);
  fit created_at <- varchar 20 "created_at" (Transaction.created_at t);
  fit updated_at <- varchar 20 "updated_at" (Transaction.updated_at t);
  fit synced <- int "synced" (Transaction.synced t);
  inr (id, transactions.mk date category type amount description
             created_at updated_at synced).

Definition budgets_values (b : Budget.t) : fitted (string * budgets.row) :=
  fit limit_literal <- float_literal (Budget.monthly_limit b);
  fit id <- varchar 36 "id" (Budget.id b);
  fit category <- varchar 100 "category" (Budget.category b);
  fit monthly_limit <- decimal_10_2 "monthly_limit" limit_literal;
  fit created_at <- varchar 20 "created_at" (Budget.created_at b);
  fit updated_at <- varchar 20 "updated_at" (Budget.updated_at b);
  inr (id, budgets.mk category monthly_limit created_at updated_at).

Definition categories_values (c : Category.t)
  : fitted (string * categories.row) :=
  fit id <- varchar 36 "id" (Category.id c);
  fit name <- varchar 100 "name" (Category.name c);
  fit type <- varchar 10 "type" (Category.type c);
  fit icon <- varchar_null 50 "icon" (Category.icon c);
  fit created_at <- varchar 20 "created_at" (Category.created_at c);
  inr (id, categories.mk name type icon created_at).

(** ** The statements *)

Definition with_transactions (f : gmap string transactions.row → gmap string transactions.row)
    (db : Database) : Database :=
  mkDatabase (collation db) (f (tbl_transactions db)) (tbl_budgets db)
    (tbl_categories db).

Definition with_budgets (f : gmap string budgets.row → gmap string budgets.row)
    (db : Database) : Database :=
  mkDatabase (collation db) (tbl_transactions db) (f (tbl_budgets db))
    (tbl_categories db).

Definition with_categories (f : gmap string categories.row → gmap string categories.row)
    (db : Database) : Database :=
  mkDatabase (collation db) (tbl_transactions db) (tbl_budgets db)
    (f (tbl_categories db)).

(** [REPLACE INTO]: the rows that collide with the new row, on the
    primary key or on a unique index, are deleted, and the new row is
    inserted. *)
Definition replace_row {V : Type} (collide : relation (string * V))
    `{!RelDecision collide} (v : string * V) (m : gmap string V)
  : gmap string V :=
  <[v.1 := v.2]> (filter (λ kr, ¬ collide kr v) m).

(** The primary key [id] is the only unique key of [transactions]. *)
Definition same_transaction (key : Collation)
    (a b : string * transactions.row) : Prop :=
  key a.1 = key b.1.

#[global] Instance same_transaction_dec key : RelDecision (same_transaction key).
Proof. intros a b. unfold same_transaction. apply _. Defined.

Definition replace_transactions_row (key : Collation)
    (v : string * transactions.row)
    (m : gmap string transactions.row) : gmap string transactions.row :=
  replace_row (same_transaction key) v m.

(** [budgets] has the primary key [id] and a unique index on
    [category]. *)
Definition same_budget (key : Collation) (a b : string * budgets.row) : Prop :=
  key a.1 = key b.1 ∨ key (budgets.category a.2) = key (budgets.category b.2).

#[global] Instance same_budget_dec key : RelDecision (same_budget key).
Proof. intros a b. unfold same_budget. apply _. Defined.

Definition replace_budgets_row (key : Collation) (v : string * budgets.row)
    (m : gmap string budgets.row) : gmap string budgets.row :=
  replace_row (same_budget key) v m.

(** The row holding a given [id], and the row holding a given [name], if
    there is one. *)
Definition lookup_id (key : Collation) (i : string)
    (m : gmap string categories.row) : option (string * categories.row) :=
  head (map_to_list (filter (λ kr, key kr.1 = key i) m)).

Definition lookup_name (key : Collation) (n : string)
    (m : gmap string categories.row) : option (string * categories.row) :=
  head (map_to_list (filter (λ kr, key (categories.name kr.2) = key n) m)).

(** [INSERT INTO categories ... ON DUPLICATE KEY UPDATE icon = VALUES(icon)] *)
Definition upsert_categories_row (key : Collation)
    (v : string * categories.row)
    (m : gmap string categories.row) : gmap string categories.row :=
  match lookup_id key v.1 m with
  | Some (k, old) => <[k := categories.set_icon (categories.icon v.2) old]> m
  | None =>
      match lookup_name key (categories.name v.2) m with
      | Some (k, old) => <[k := categories.set_icon (categories.icon v.2) old]> m
      | None => <[v.1 := v.2]> m
      end
  end.

Definition replace_into_transactions (trans : Transaction.t) (db : Database)
  : fitted Database :=
  fit v <- transactions_values trans;
  inr (with_transactions (replace_transactions_row (collation db) v) db).

Definition replace_into_budgets (budget : Budget.t) (db : Database)
  : fitted Database :=
  fit v <- budgets_values budget;
  inr (with_budgets (replace_budgets_row (collation db) v) db).

Definition insert_into_categories (cat : Category.t) (db : Database)
  : fitted Database :=
  fit v <- categories_values cat;
  inr (with_categories (upsert_categories_row (collation db) v) db).

(** [ORDER BY date DESC] *)
Definition date_desc (x y : string * transactions.row) : Prop :=
  String.le (transactions.date y.2) (transactions.date x.2).

#[global] Instance date_desc_dec : RelDecision date_desc.
Proof. intros x y. unfold date_desc. apply _. Defined.

Definition select_transactions_order_by_date_desc (db : Database)
  : list (string * transactions.row) :=
  merge_sort date_desc (map_to_list (tbl_transactions db)).

Definition select_budgets (db : Database) : list (string * budgets.row) :=
  map_to_list (tbl_budgets db).

Definition select_categories (db : Database) : list (string * categories.row) :=
  map_to_list (tbl_categories db).

(** ** The process and its connection *)

(** What the handlers cannot decide: the environment variables, whether
    the server accepts a connection and the text of the driver's error when
    it does not, what [is_connected] answers on the new connection, at
    which later exchange with the server, if any, the link breaks, and the
    text of the driver's error for a lost link. *)
Record Env : Type := mkEnv {
  getenv : string → option string;
  server_accepts : bool;
  connect_error : string;
  is_connected : bool;
  link_up : nat → bool;
  link_error : string
}.

(** [storage] is what is committed; [session] is what the open connection
    sees (its transaction), [None] when no connection is open; [trips]
    counts the exchanges with the server. *)
Record World : Type := mkWorld {
  storage : Database;
  session : option Database;
  trips : nat
}.

Inductive Outcome (A : Type) : Type :=
| Return (a : A)
| Raise (e : Exception).
Arguments Return {A} a.
Arguments Raise {A} e.

Definition M (A : Type) : Type := World → Outcome A * World.

#[global] Instance M_ret : MRet M := λ A a w, (Return a, w).
#[global] Instance M_bind : MBind M := λ A B f m w,
  match m w with
  | (Return a, w') => f a w'
  | (Raise e, w') => (Raise e, w')
  end.

Definition raise {A : Type} (e : Exception) : M A := λ w, (Raise e, w).

(** [try: body  except <clauses>: ...]; a clause that does not match the
    exception answers [None] and the exception goes on. *)
Definition try_except {A : Type} (body : M A) (handler : Exception → option (M A))
  : M A := λ w,
  match body w with
  | (Return a, w') => (Return a, w')
  | (Raise e, w') =>
      match handler e with
      | Some h => h w'
      | None => (Raise e, w')
      end
  end.

(** [try: body  finally: final] *)
Definition try_finally {A : Type} (body : M A) (final : M unit) : M A := λ w,
  match body w with
  | (r, w') =>
      match final w' with
      | (Return _, w'') => (r, w'')
      | (Raise e, w'') => (Raise e, w'')
      end
  end.

Fixpoint for_each {A : Type} (l : list A) (body : A → M unit) : M unit :=
  match l with
  | [] => mret ()
  | x :: l' => body x ;; for_each l' body
  end.

Inductive MySQLConnection : Type := Connection.

Inductive MySQLCursor : Type := Cursor.

(** ** The responses *)

Module BackupResponse.
Record t : Type := mk {
  status : string;
  message : string;
  transactions_backed_up : nat;
  budgets_backed_up : nat;
  categories_backed_up : nat
}.
End BackupResponse.

Module RestoreResponse.
Record t : Type := mk {
  transactions : list (string * transactions.row);
  budgets : list (string * budgets.row);
  categories : list (string * categories.row)
}.
End RestoreResponse.

(** The two dictionaries of [health_check] carry the third entry under
    different keys: [message] when healthy, [error] when not. *)
Module HealthResponse.
Record t : Type := mk {
  status : string;
  database : string;
  message : option string;
  error : option string
}.
End HealthResponse.

Section Handlers.
Variable env : Env.

(** [mysql.connector.connect] with the settings of [DB_CONFIG] *)
Definition connect : M MySQLConnection := λ w,
  if server_accepts env
  then (Return Connection, mkWorld (storage w) (Some (storage w)) (trips w))
  else (Raise (Error (ConnectionRefused (connect_error env))), w).

(** One exchange with the server. Once the link has broken the
    connection stays unusable and the server drops its transaction. *)
Definition round_trip : M Database := λ w,
  match session w with
  | None => (Raise (Error (ConnectionLost (link_error env))), w)
  | Some view =>
      if link_up env (trips w)
      then (Return view, mkWorld (storage w) (session w) (S (trips w)))
      else (Raise (Error (ConnectionLost (link_error env))),
            mkWorld (storage w) None (S (trips w)))
  end.

(** [connection.is_connected()] on a connection in use: one exchange, and
    [False] when it fails. *)
Definition ping : M bool := λ w,
  match session w with
  | None => (Return false, w)
  | Some _ =>
      if link_up env (trips w)
      then (Return true, mkWorld (storage w) (session w) (S (trips w)))
      else (Return false, mkWorld (storage w) None (S (trips w)))
  end.

Definition set_session (view : Database) : M unit := λ w,
  (Return (), mkWorld (storage w) (Some view) (trips w)).

(** [cursor.execute(statement, params)] for a statement that writes. *)
Definition execute (statement : Database → fitted Database) : M unit :=
  view ← round_trip;
  match statement view with
  | inr view' => set_session view'
  | inl e => raise (Error e)
  end.

(** [cursor.execute(query)] followed by [cursor.fetchall()]. *)
Definition execute_fetchall {A : Type} (query : Database → A) : M A :=
  view ← round_trip;
  mret (query view).

Definition set_storage (view : Database) : M unit := λ w,
  (Return (), mkWorld view (session w) (trips w)).

Definition discard_changes : M unit := λ w,
  (Return (), mkWorld (storage w) (Some (storage w)) (trips w)).

(** [connection.commit()] *)
Definition commit : M unit :=
  view ← round_trip;
  set_storage view.

(** [connection.rollback()] *)
Definition rollback : M unit :=
  round_trip ;;
  discard_changes.

(** [cursor.close()] and [connection.close()]: what was not committed is
    gone with the connection. *)
Definition close : M unit := λ w,
  (Return (), mkWorld (storage w) None (trips w)).

(** Attribute access on what [get_db_connection] returned. *)
Definition attribute (connection : option MySQLConnection) (name : string)
  : M MySQLConnection :=
  match connection with
  | Some c => mret c
  | None => raise (AttributeError
               ("'NoneType' object has no attribute '" +:+ name +:+ "'"))
  end.

(** [connection.cursor()]: the driver hands out a cursor on a connection
    that answers, and raises on one that does not. *)
Definition cursor (connection : option MySQLConnection) : M MySQLCursor :=
  attribute connection "cursor" ;;
  alive ← ping;
  if alive : bool then mret Cursor else raise (Error ConnectionNotAvailable).

Definition required_vars : list string :=
  ["DB_HOST"; "DB_USER"; "DB_PASSWORD"; "DB_NAME"].

(** [not os.getenv(var)]: unset, or set to the empty string. *)
Definition not_getenv (var : string) : bool :=
  match getenv env var with
  | None => true
  | Some v => String.eqb v ""
  end.

Fixpoint join (sep : string) (l : list string) : string :=
  match l with
  | [] => ""
  | [x] => x
  | x :: l' => x +:+ sep +:+ join sep l'
  end.

Definition get_db_connection : M (option MySQLConnection) :=
  try_except
    (let missing_vars := List.filter not_getenv required_vars in
     match missing_vars with
     | _ :: _ =>
         raise (ValueError ("Missing required environment variables: "
                            +:+ join ", " missing_vars))
     | [] =>
         connection ← connect;
         if is_connected env then mret (Some connection) else mret None
     end)
    (λ e, match e with
          | Error e' =>
              Some (raise (HTTPException 500
                      ("Database connection failed: " +:+ str_MySQLError e')))
          | ValueError msg => Some (raise (HTTPException 500 msg))
          | _ => None
          end).

(** [POST /backup]: the [try] block, the [except Error] clause, and the
    handler around them. *)
Definition backup_try (data : BackupData.t) : M BackupResponse.t :=
  for_each (BackupData.transactions data)
    (λ trans, execute (replace_into_transactions trans)) ;;
  for_each (BackupData.budgets data)
    (λ budget, execute (replace_into_budgets budget)) ;;
  for_each (BackupData.categories data)
    (λ cat, execute (insert_into_categories cat)) ;;
  commit ;;
  mret (BackupResponse.mk "success" "Backup completed successfully"
          (length (BackupData.transactions data))
          (length (BackupData.budgets data))
          (length (BackupData.categories data))).

Definition backup_except (e : Exception) : option (M BackupResponse.t) :=
  match e with
  | Error e' =>
      Some (rollback ;;
            raise (HTTPException 500 ("Backup failed: " +:+ str_MySQLError e')))
  | _ => None
  end.

Definition backup (data : BackupData.t) : M BackupResponse.t :=
  connection ← get_db_connection;
  cur ← cursor connection;
  try_finally (try_except (backup_try data) backup_except) close.

(** [GET /restore], in the same three parts. *)
Definition restore_try : M RestoreResponse.t :=
  transactions ← execute_fetchall select_transactions_order_by_date_desc;
  budgets ← execute_fetchall select_budgets;
  categories ← execute_fetchall select_categories;
  mret (RestoreResponse.mk transactions budgets categories).

Definition restore_except (e : Exception) : option (M RestoreResponse.t) :=
  match e with
  | Error e' =>
      Some (raise (HTTPException 500 ("Restore failed: " +:+ str_MySQLError e')))
  | _ => None
  end.

Definition restore : M RestoreResponse.t :=
  connection ← get_db_connection;
  cur ← cursor connection;
  try_finally (try_except restore_try restore_except) close.

(** [GET /health]; [except Exception] takes every exception. *)
Definition health_check : M HealthResponse.t :=
  try_except
    (connection ← get_db_connection;
     attribute connection "close" ;;
     close ;;
     mret (HealthResponse.mk "healthy" "connected"
             (Some "API is running and database is accessible") None))
    (λ e, Some (mret (HealthResponse.mk "unhealthy" "disconnected"
                        None (Some (str_Exception e))))).
End Handlers.

(** A request starts with no connection open; what it leaves behind is
    what is committed. *)
Definition request {A : Type} (handler : M A) (db : Database)
  : Outcome A * Database :=
  let '(r, w) := handler (mkWorld db None 0) in (r, storage w).

Definition Backup (env : Env) (db : Database) (data : BackupData.t)
  : Outcome BackupResponse.t * Database :=
  request (backup env data) db.

Definition Restore (env : Env) (db : Database)
  : Outcome RestoreResponse.t * Database :=
  request (restore env) db.

Definition HealthCheck (env : Env) (db : Database)
  : Outcome HealthResponse.t * Database :=
  request (health_check env) db.

(** ** What one call does to the tables *)

(** The statements of a loop, one after the other, stopping at the first
    that fails. *)
Fixpoint apply_each {A : Type} (f : A → Database → fitted Database)
    (l : list A) (db : Database) : fitted Database :=
  match l with
  | [] => inr db
  | x :: l' => fit db' <- f x db; apply_each f l' db'
  end.

(** The three loops of [backup], in the order of the source. *)
Definition apply_backup (data : BackupData.t) (db : Database) : fitted Database :=
  fit db1 <- apply_each replace_into_transactions (BackupData.transactions data) db;
  fit db2 <- apply_each replace_into_budgets (BackupData.budgets data) db1;
  apply_each insert_into_categories (BackupData.categories data) db2.

(** The dictionary [backup] returns. *)
Definition backup_response (data : BackupData.t) : BackupResponse.t :=
  BackupResponse.mk "success" "Backup completed successfully"
    (length (BackupData.transactions data))
    (length (BackupData.budgets data))
    (length (BackupData.categories data)).

Definition statements (data : BackupData.t) : nat :=
  (length (BackupData.transactions data) + length (BackupData.budgets data)
   + length (BackupData.categories data))%nat.

Definition vars_present (env : Env) : bool :=
  forallb (λ var, negb (not_getenv env var)) required_vars.

(** [get_db_connection] hands out a connection. *)
Definition obtains_connection (env : Env) : bool :=
  vars_present env && server_accepts env && is_connected env.

(** The link holds for the first [n] exchanges. *)
Definition link_holds (env : Env) (n : nat) : Prop :=
  ∀ i, (i < n)%nat → link_up env i = true.

(** An environment in which nothing goes wrong. *)
Definition healthy (env : Env) : Prop :=
  obtains_connection env = true ∧ ∀ i, link_up env i = true.

Ltac munfold :=
  unfold cursor in *;
  unfold mbind, M_bind, mret, M_ret, raise, try_except, try_finally,
    set_session, set_storage, discard_changes, close, attribute, ping in *.

Definition restore_response (db : Database) : RestoreResponse.t :=
  RestoreResponse.mk (select_transactions_order_by_date_desc db)
    (select_budgets db) (select_categories db).



(** ** The tables after a loop *)

(** The tuples of a loop, in order, when every one of them fits. *)
Fixpoint values_each {A V : Type} (f : A → fitted V) (l : list A)
  : fitted (list V) :=
  match l with
  | [] => inr []
  | x :: l' => fit v <- f x; fit vs <- values_each f l'; inr (v :: vs)
  end.

Definition replace_rows {V : Type} (collide : relation (string * V))
    `{!RelDecision collide} (vs : list (string * V)) (m : gmap string V)
  : gmap string V :=
  foldl (λ m v, replace_row collide v m) m vs.

Definition replace_transactions_rows (key : Collation)
    (vs : list (string * transactions.row))
    (m : gmap string transactions.row) : gmap string transactions.row :=
  replace_rows (same_transaction key) vs m.

Definition replace_budgets_rows (key : Collation)
    (vs : list (string * budgets.row))
    (m : gmap string budgets.row) : gmap string budgets.row :=
  replace_rows (same_budget key) vs m.

(** No two rows of a table collide. *)
Definition collision_free {V : Type} (collide : relation (string * V))
    (m : gmap string V) : Prop :=
  ∀ k1 k2 r1 r2, m !! k1 = Some r1 → m !! k2 = Some r2 →
    collide (k1, r1) (k2, r2) → k1 = k2.

Definition upsert_categories_rows (key : Collation)
    (vs : list (string * categories.row))
    (m : gmap string categories.row) : gmap string categories.row :=
  foldl (λ m v, upsert_categories_row key v m) m vs.

(** The invariant of a primary key: no two rows are stored under ids that
    are the same key. *)
Definition ids_unique {V : Type} (key : Collation) (m : gmap string V) : Prop :=
  ∀ k1 k2 r1 r2, m !! k1 = Some r1 → m !! k2 = Some r2 →
    key k1 = key k2 → k1 = k2.

(** The invariant of the unique index on [categories.name]. *)
Definition names_unique (key : Collation) (m : gmap string categories.row)
  : Prop :=
  ∀ k1 k2 r1 r2, m !! k1 = Some r1 → m !! k2 = Some r2 →
    key (categories.name r1) = key (categories.name r2) → k1 = k2.

(** The key of the row that [INSERT ... ON DUPLICATE KEY UPDATE] writes. *)
Definition target (key : Collation) (v : string * categories.row)
    (m : gmap string categories.row) : string :=
  match lookup_id key v.1 m with
  | Some (k, _) => k
  | None =>
      match lookup_name key (categories.name v.2) m with
      | Some (k, _) => k
      | None => v.1
      end
  end.

(** Tuples that agree on [id] agree on [name]. *)
Definition coherent (key : Collation) (vs : list (string * categories.row))
  : Prop :=
  ∀ u v, u ∈ vs → v ∈ vs → key u.1 = key v.1 →
    key (categories.name u.2) = key (categories.name v.2).

(** ** Records that their columns hold as they are *)

(** The hundredths of a number that has at most two fractional digits and
    at most eight integer digits. *)
Definition cents (x : float) : option Z :=
  match x with
  | NaN | Infinity _ => None
  | Finite q =>
      let n := (Qnum q * 100)%Z in
      let d := Z.pos (Qden q) in
      if ((n mod d =? 0) && (Z.abs (n / d) <=? 9999999999))%Z
      then Some (n / d) else None
  end.

Definition holds (n : nat) (s : string) : bool := (char_length s <=? n)%nat.

Definition holds_null (n : nat) (s : option string) : bool :=
  match s with
  | None => true
  | Some v => holds n v
  end.

Definition holds_text (s : option string) : bool :=
  match s with
  | None => true
  | Some v => (String.length v <=? text_limit)%nat
  end.

Definition holds_int (n : Z) : bool :=
  ((-2147483648 <=? n) && (n <=? 2147483647))%Z.

(** The row with the very fields of the record, when every column holds
    its field unchanged. *)
Definition transaction_row (t : Transaction.t)
  : option (string * transactions.row) :=
  if holds 36 (Transaction.id t) && holds 10 (Transaction.date t)
     && holds 100 (Transaction.category t) && holds 10 (Transaction.type t)
     && holds_text (Transaction.description t)
     && holds 20 (Transaction.created_at t) && holds 20 (Transaction.updated_at t)
     && holds_int (Transaction.synced t)
  then
    match cents (Transaction.amount t) with
    | Some c =>
        Some (Transaction.id t,
              transactions.mk (Transaction.date t) (Transaction.category t)
                (Transaction.type t) c (Transaction.description t)
                (Transaction.created_at t) (Transaction.updated_at t)
                (Transaction.synced t))
    | None => None
    end
  else None.

Definition budget_row (b : Budget.t) : option (string * budgets.row) :=
  if holds 36 (Budget.id b) && holds 100 (Budget.category b)
     && holds 20 (Budget.created_at b) && holds 20 (Budget.updated_at b)
  then
    match cents (Budget.monthly_limit b) with
    | Some c =>
        Some (Budget.id b,
              budgets.mk (Budget.category b) c (Budget.created_at b)
                (Budget.updated_at b))
    | None => None
    end
  else None.

(** A category written as a row, field by field. *)
Definition category_tuple (c : Category.t) : string * categories.row :=
  (Category.id c,
   categories.mk (Category.name c) (Category.type c) (Category.icon c)
     (Category.created_at c)).

Definition category_row (c : Category.t) : option (string * categories.row) :=
  if holds 36 (Category.id c) && holds 100 (Category.name c)
     && holds 10 (Category.type c) && holds_null 50 (Category.icon c)
     && holds 20 (Category.created_at c)
  then Some (category_tuple c)
  else None.

(** ** Calls whose records all fit *)

(** The tuples of the three loops. *)
Definition snapshot_values (data : BackupData.t)
  : fitted (list (string * transactions.row) * list (string * budgets.row)
            * list (string * categories.row)) :=
  fit tvs <- values_each transactions_values (BackupData.transactions data);
  fit bvs <- values_each budgets_values (BackupData.budgets data);
  fit cvs <- values_each categories_values (BackupData.categories data);
  inr (tvs, bvs, cvs).

(** No record of the call violates a column constraint. *)
Definition accepted (data : BackupData.t) : bool :=
  match snapshot_values data with
  | inr _ => true
  | inl _ => false
  end.

(** No two categories of the list are stored under the same [id] with
    different names. *)
Definition coherent_categories (key : Collation) (l : list Category.t) : Prop :=
  ∀ c c' v v', c ∈ l → c' ∈ l →
    categories_values c = inr v → categories_values c' = inr v' →
    key v.1 = key v'.1 →
    key (categories.name v.2) = key (categories.name v'.2).

(** ** Invariants of the tables *)

(** The invariant of the unique index on [budgets.category]. *)
Definition categories_unique (key : Collation) (m : gmap string budgets.row)
  : Prop :=
  ∀ k1 k2 r1 r2, m !! k1 = Some r1 → m !! k2 = Some r2 →
    key (budgets.category r1) = key (budgets.category r2) → k1 = k2.

(** The primary keys and unique indexes of the three tables. *)
Definition keys_unique (db : Database) : Prop :=
  ids_unique (collation db) (tbl_transactions db) ∧
  ids_unique (collation db) (tbl_budgets db) ∧
  categories_unique (collation db) (tbl_budgets db) ∧
  ids_unique (collation db) (tbl_categories db) ∧
  names_unique (collation db) (tbl_categories db).

(** What can be stored: whatever a sequence of Backup calls, in any
    environments, leaves of the empty tables. *)
Inductive reachable : Database → Prop :=
| reachable_empty key : reachable (empty_database key)
| reachable_Backup env db data :
    reachable db → reachable (Backup env db data).2.

(** Rows within the widths and ranges of their columns. *)
Definition transactions_row_ok (k : string) (r : transactions.row) : bool :=
  holds 36 k && holds 10 (transactions.date r)
  && holds 100 (transactions.category r) && holds 10 (transactions.type r)
  && (Z.abs (transactions.amount r) <=? 9999999999)%Z
  && holds_text (transactions.description r)
  && holds 20 (transactions.created_at r) && holds 20 (transactions.updated_at r)
  && holds_int (transactions.synced r).

Definition budgets_row_ok (k : string) (r : budgets.row) : bool :=
  holds 36 k && holds 100 (budgets.category r)
  && (Z.abs (budgets.monthly_limit r) <=? 9999999999)%Z
  && holds 20 (budgets.created_at r) && holds 20 (budgets.updated_at r).

Definition categories_row_ok (k : string) (r : categories.row) : bool :=
  holds 36 k && holds 100 (categories.name r) && holds 10 (categories.type r)
  && holds_null 50 (categories.icon r) && holds 20 (categories.created_at r).

Definition well_typed (db : Database) : Prop :=
  (∀ k r, tbl_transactions db !! k = Some r → transactions_row_ok k r = true) ∧
  (∀ k r, tbl_budgets db !! k = Some r → budgets_row_ok k r = true) ∧
  (∀ k r, tbl_categories db !! k = Some r → categories_row_ok k r = true).

(** The variables [get_db_connection] reports as missing. *)
Definition missing_vars (env : Env) : list string :=
  List.filter (not_getenv env) required_vars.

(** ** [init_database] and [startup_event]

    The handlers are written for a server on which the three tables
    exist; [init_database] is what makes them exist. It is modelled over
    the tables of the server, each of which may be missing. Taken from
    MySQL: [CREATE TABLE IF NOT EXISTS] creates the table, empty, when
    there is none of that name and leaves the table alone otherwise; a
    table is created with the default collation of the server; the
    statement is committed on its own, so that a later failure does not
    undo it; the account of [DB_CONFIG] may create tables. *)

Record Schema : Type := mkSchema {
  default_collation : Collation;
  transactions_table : option (gmap string transactions.row);
  budgets_table : option (gmap string budgets.row);
  categories_table : option (gmap string categories.row)
}.

(** The rows of a server, a missing table having none. *)
Definition rows (s : Schema) : Database :=
  mkDatabase (default_collation s) (default ∅ (transactions_table s))
    (default ∅ (budgets_table s)) (default ∅ (categories_table s)).

(** The tables the handlers work on, when the three of them exist. *)
Definition serves (s : Schema) : option Database :=
  match transactions_table s, budgets_table s, categories_table s with
  | Some t, Some b, Some c => Some (mkDatabase (default_collation s) t b c)
  | _, _, _ => None
  end.

(** The tables of the server and the connection of the process. *)
Record Server : Type := mkServer {
  schema : Schema;
  world : World
}.

Definition IM (A : Type) : Type := Server → Outcome A * Server.

#[global] Instance IM_ret : MRet IM := λ A a sv, (Return a, sv).
#[global] Instance IM_bind : MBind IM := λ A B f m sv,
  match m sv with
  | (Return a, sv') => f a sv'
  | (Raise e, sv') => (Raise e, sv')
  end.

Definition lift {A : Type} (m : M A) : IM A := λ sv,
  let '(r, w) := m (world sv) in (r, mkServer (schema sv) w).

Definition raise_in {A : Type} (e : Exception) : IM A := λ sv, (Raise e, sv).

Definition try_except_in {A : Type} (body : IM A)
    (handler : Exception → option (IM A)) : IM A := λ sv,
  match body sv with
  | (Return a, sv') => (Return a, sv')
  | (Raise e, sv') =>
      match handler e with
      | Some h => h sv'
      | None => (Raise e, sv')
      end
  end.

Definition try_finally_in {A : Type} (body : IM A) (final : IM unit) : IM A :=
  λ sv,
  match body sv with
  | (r, sv') =>
      match final sv' with
      | (Return _, sv'') => (r, sv'')
      | (Raise e, sv'') => (Raise e, sv'')
      end
  end.

Definition alter_schema (f : Schema → Schema) : IM unit := λ sv,
  (Return (), mkServer (f (schema sv)) (world sv)).

(** The three [CREATE TABLE IF NOT EXISTS] of [init_database]. *)
Definition create_transactions (s : Schema) : Schema :=
  mkSchema (default_collation s) (Some (default ∅ (transactions_table s)))
    (budgets_table s) (categories_table s).

Definition create_budgets (s : Schema) : Schema :=
  mkSchema (default_collation s) (transactions_table s)
    (Some (default ∅ (budgets_table s))) (categories_table s).

Definition create_categories (s : Schema) : Schema :=
  mkSchema (default_collation s) (transactions_table s) (budgets_table s)
    (Some (default ∅ (categories_table s))).

Section Startup.
Variable env : Env.

(** [cursor.execute] of a statement that defines a table. *)
Definition execute_definition (statement : Schema → Schema) : IM unit :=
  lift (round_trip env) ;;
  alter_schema statement.

Definition init_database_try : IM unit :=
  execute_definition create_transactions ;;
  execute_definition create_budgets ;;
  execute_definition create_categories ;;
  lift (commit env).

Definition init_database_except (e : Exception) : option (IM unit) :=
  match e with
  | Error e' =>
      Some (raise_in (HTTPException 500
              ("Database initialization failed: " +:+ str_MySQLError e')))
  | _ => None
  end.

Definition init_database : IM unit :=
  connection ← lift (get_db_connection env);
  cur ← lift (cursor env connection);
  try_finally_in (try_except_in init_database_try init_database_except)
    (lift close).

(** The handler of the [startup] event; what it raises stops the
    application from starting. *)
Definition startup_event : IM unit :=
  init_database ;;
  mret ().
End Startup.

(** The start of the process on a server with the tables [s]. *)
Definition Startup (env : Env) (s : Schema) : Outcome unit * Schema :=
  let '(r, sv) := startup_event env (mkServer s (mkWorld (rows s) None 0)) in
  (r, schema sv).

(** Every table exists. *)
Definition initialized (s : Schema) : Schema :=
  create_categories (create_budgets (create_transactions s)).

(** What [init_database] raises when the link breaks. *)
Definition initialization_failed (env : Env) : Exception :=
  HTTPException 500
    ("Database initialization failed: "
     +:+ str_MySQLError (ConnectionLost (link_error env))).


(** ** Concrete data for the examples *)

(** The texts of the driver's errors in the examples. *)
Definition refused : string :=
  "2003 (HY000): Can't connect to MySQL server on 'localhost:3306' (111)".

Definition lost : string :=
  "2013 (HY000): Lost connection to MySQL server during query".

(** Tables without rows, compared without regard to case. *)
Definition no_rows : Database := empty_database case_insensitive.

(** An environment where the four variables are set, the server accepts
    the connection and the link never breaks. *)
Definition env_ok : Env :=
  mkEnv (λ var, Some ("value of " +:+ var)) true refused true (λ _, true)
    lost.

(** The same, without [DB_PASSWORD]. *)
Definition env_no_password : Env :=
  mkEnv (λ var, if String.eqb var "DB_PASSWORD" then None else Some "set")
    true refused true (λ _, true) lost.

(** The same as [env_ok], with a server that refuses connections. *)
Definition env_unreachable : Env :=
  mkEnv (λ var, Some ("value of " +:+ var)) false refused false (λ _, true)
    lost.

Definition t_jan : Transaction.t :=
  Transaction.mk "t1" "2024-01-01" "Food" "expense" (Finite (1250 # 100))
    (Some "lunch") "2024-01-01T12:00:00" "2024-01-01T12:00:00" 1.

Definition t_mar : Transaction.t :=
  Transaction.mk "t2" "2024-03-15" "Salary" "income" (Finite (3000 # 1))
    (Some "") "2024-03-15T09:00:00" "2024-03-15T09:00:00" 1.

Definition row_jan : string * transactions.row :=
  ("t1", transactions.mk "2024-01-01" "Food" "expense" 1250 (Some "lunch")
           "2024-01-01T12:00:00" "2024-01-01T12:00:00" 1).

Definition row_mar : string * transactions.row :=
  ("t2", transactions.mk "2024-03-15" "Salary" "income" 300000 (Some "")
           "2024-03-15T09:00:00" "2024-03-15T09:00:00" 1).

(** [t_jan] submitted again under the same [id] with another amount. *)
Definition t_jan_again : Transaction.t :=
  Transaction.mk "t1" "2024-01-01" "Food" "expense" (Finite (990 # 100))
    (Some "lunch") "2024-01-01T12:00:00" "2024-01-02T08:00:00" 1.

Definition two_dates : BackupData.t := BackupData.mk [t_jan; t_mar] [] [].

Definition db_two_dates : Database :=
  (Backup env_ok no_rows two_dates).2.

(** A budget whose [id] has 40 characters, four more than the column
    holds. *)
Definition b_long_id : Budget.t :=
  Budget.mk "0123456789012345678901234567890123456789" "Rent"
    (Finite (900 # 1)) "2024-01-01T00:00:00" "2024-01-01T00:00:00".

Definition good_then_bad : BackupData.t :=
  BackupData.mk [t_jan; t_mar] [b_long_id] [].

Definition same_id_twice : BackupData.t :=
  BackupData.mk [t_jan; t_jan_again] [] [].

Definition empty_snapshot : BackupData.t := BackupData.mk [] [] [].

Definition b_food_1 : Budget.t :=
  Budget.mk "b1" "Food" (Finite (100 # 1)) "2024-01-01T00:00:00" "2024-01-01T00:00:00".

Definition b_food_2 : Budget.t :=
  Budget.mk "b2" "Food" (Finite (25050 # 100)) "2024-02-01T00:00:00" "2024-02-01T00:00:00".

(** A budget that takes the [id] of [b_food_2] for another category. *)
Definition b_rent_2 : Budget.t :=
  Budget.mk "b2" "Rent" (Finite (900 # 1)) "2024-02-01T00:00:00" "2024-02-01T00:00:00".

Definition first_budget : BackupData.t := BackupData.mk [] [b_food_1] [].
Definition second_budget : BackupData.t := BackupData.mk [] [b_food_2] [].

Definition db_first_budget : Database :=
  (Backup env_ok no_rows first_budget).2.

Definition c_food : Category.t :=
  Category.mk "c1" "Food" "expense" "2024-01-01T00:00:00" (Some "🍔").

(** The second category of the example of the specification: another
    [id], the same [name]. *)
Definition c_food_2 : Category.t :=
  Category.mk "c2" "Food" "income" "2024-02-01T00:00:00" (Some "🍕").

Definition c_drink : Category.t :=
  Category.mk "c2" "Drink" "expense" "2024-01-01T00:00:00" (Some "🥤").


Definition row_food : categories.row :=
  categories.mk "Food" "expense" (Some "🍔") "2024-01-01T00:00:00".

Definition row_drink : categories.row :=
  categories.mk "Drink" "expense" (Some "🥤") "2024-01-01T00:00:00".

Definition only_food : BackupData.t := BackupData.mk [] [] [c_food].
Definition only_food_2 : BackupData.t := BackupData.mk [] [] [c_food_2].
Definition food_and_drink : BackupData.t := BackupData.mk [] [] [c_food; c_drink].

Definition db_food : Database := (Backup env_ok no_rows only_food).2.

Definition db_food_and_drink : Database :=
  (Backup env_ok no_rows food_and_drink).2.

(** Three categories of which the second has the name of the first and
    the third the [id] of the second. *)
Definition three_categories : BackupData.t :=
  BackupData.mk [] [] [c_food; c_food_2; c_drink].

Definition db_three_once : Database :=
  (Backup env_ok no_rows three_categories).2.

Definition db_three_twice : Database :=
  (Backup env_ok db_three_once three_categories).2.

Definition row_jan_again : string * transactions.row :=
  ("t1", transactions.mk "2024-01-01" "Food" "expense" 990 (Some "lunch")
           "2024-01-01T12:00:00" "2024-01-02T08:00:00" 1).

Definition db_same_id_twice : Database :=
  (Backup env_ok no_rows same_id_twice).2.

(** A snapshot with distinct keys, and two categories of one name. *)
Definition full_snapshot : BackupData.t :=
  BackupData.mk [t_jan; t_mar] [b_food_1; b_rent_2] [c_food; c_food_2].



(** An environment where the link breaks at the second exchange. *)
Definition env_link_breaks : Env :=
  mkEnv (λ var, Some ("value of " +:+ var)) true refused true
    (λ i, negb (i =? 1)%nat) lost.

(** An environment where [connect] returns and [is_connected] says no. *)
Definition env_not_connected : Env :=
  mkEnv (λ var, Some ("value of " +:+ var)) true refused false (λ _, true)
    lost.

(** An environment where [DB_USER] is empty and [DB_NAME] is unset. *)
Definition env_two_missing : Env :=
  mkEnv (λ var, if String.eqb var "DB_USER" then Some ""
                else if String.eqb var "DB_NAME" then None
                else Some "set")
    true refused true (λ _, true) lost.

(** The row of [b_food_1]. *)
Definition first_budget_row : budgets.row :=
  budgets.mk "Food" 10000 "2024-01-01T00:00:00" "2024-01-01T00:00:00".



(** A server with the budgets of [db_first_budget] and no other table. *)
Definition only_budgets_table : Schema :=
  mkSchema case_insensitive None (Some (tbl_budgets db_first_budget))
    None.

(** An environment where the link breaks at the third exchange. *)
Definition env_link_breaks_late : Env :=
  mkEnv (λ var, Some ("value of " +:+ var)) true refused true
    (λ i, negb (i =? 2)%nat) lost.

(** A budget for the category of [b_food_1] in other letter case, and a
    category with the name of [c_food] in other letter case. *)
Definition b_food_lower : Budget.t :=
  Budget.mk "b3" "food" (Finite (75 # 1)) "2024-03-01T00:00:00" "2024-03-01T00:00:00".

Definition third_budget : BackupData.t := BackupData.mk [] [b_food_lower] [].

Definition c_food_upper : Category.t :=
  Category.mk "c9" "FOOD" "income" "2024-03-01T00:00:00" (Some "🥗").

Definition only_food_upper : BackupData.t := BackupData.mk [] [] [c_food_upper].

(** [t_jan] submitted under its id in other letter case. *)
Definition t_jan_upper : Transaction.t :=
  Transaction.mk "T1" "2024-01-05" "Food" "expense" (Finite (700 # 100))
    None "2024-01-05T12:00:00" "2024-01-05T12:00:00" 1.

Definition row_jan_upper : string * transactions.row :=
  ("T1", transactions.mk "2024-01-05" "Food" "expense" 700 None
           "2024-01-05T12:00:00" "2024-01-05T12:00:00" 1).

Definition only_jan_upper : BackupData.t := BackupData.mk [t_jan_upper] [] [].

(** Amounts that are no number. *)
Definition t_nan : Transaction.t :=
  Transaction.mk "t4" "2024-02-03" "Food" "expense" NaN
    None "2024-02-03T12:00:00" "2024-02-03T12:00:00" 1.

Definition t_minus_inf : Transaction.t :=
  Transaction.mk "t5" "2024-02-04" "Food" "expense" (Infinity true)
    None "2024-02-04T12:00:00" "2024-02-04T12:00:00" 1.

Definition not_a_number : BackupData.t := BackupData.mk [t_jan; t_nan] [] [].
Definition minus_infinity : BackupData.t := BackupData.mk [t_minus_inf] [] [].

(** An environment where the link is down when the cursor is asked for. *)
Definition env_no_cursor : Env :=
  mkEnv (λ var, Some ("value of " +:+ var)) true refused true (λ _, false)
    lost.

Definition rent_budget : BackupData.t := BackupData.mk [] [b_rent_2] [].

Definition lower_then_upper : BackupData.t :=
  BackupData.mk [t_jan; t_jan_upper] [] [].

(** The row of [b_food_lower]. *)
Definition third_budget_row : budgets.row :=
  budgets.mk "food" 7500 "2024-03-01T00:00:00" "2024-03-01T00:00:00".

(** * Facts about the handlers *)

Section HandlerFacts.
Variable env : Env.

Lemma get_db_connection_eq (w : World) :
  get_db_connection env w =
    if vars_present env then
      if server_accepts env then
        (Return (if is_connected env then Some Connection else None),
         mkWorld (storage w) (Some (storage w)) (trips w))
      else
        (Raise (HTTPException 500
                  ("Database connection failed: "
                   +:+ connect_error env)), w)
    else
      (Raise (HTTPException 500
                ("Missing required environment variables: "
                 +:+ join ", " (List.filter (not_getenv env) required_vars))), w).
Proof.
  unfold get_db_connection, vars_present, try_except, connect.
  assert (Hf : forallb (λ var, negb (not_getenv env var)) required_vars
               = match List.filter (not_getenv env) required_vars with
                 | [] => true | _ => false end).
  { generalize required_vars. intros l. induction l as [|x l IH]; [done|].
    simpl. destruct (not_getenv env x); simpl; [done|]. exact IH. }
  rewrite Hf.
  destruct (List.filter (not_getenv env) required_vars) as [|x l]; [|done].
  munfold. destruct (server_accepts env); [|done].
  by destruct (is_connected env).
Qed.

Lemma round_trip_storage (w w' : World) (r : Outcome Database) :
  round_trip env w = (r, w') → storage w' = storage w.
Proof.
  unfold round_trip. destruct (session w); [|by intros [= <- <-]].
  destruct (link_up env (trips w)); by intros [= <- <-].
Qed.

Lemma execute_storage st (w w' : World) (r : Outcome unit) :
  execute env st w = (r, w') → storage w' = storage w.
Proof.
  unfold execute. munfold.
  destruct (round_trip env w) as [[view|e] w1] eqn:Hrt; intros H.
  - apply round_trip_storage in Hrt.
    destruct (st view); injection H as <- <-; done.
  - apply round_trip_storage in Hrt. by injection H as <- <-.
Qed.

Lemma for_each_execute_storage {A : Type} (f : A → Database → fitted Database)
    (l : list A) (w w' : World) (r : Outcome unit) :
  for_each l (λ x, execute env (f x)) w = (r, w') → storage w' = storage w.
Proof.
  revert w. induction l as [|x l IH]; intros w; simpl.
  - by intros [= <- <-].
  - munfold. destruct (execute env (f x) w) as [[[]|e] w1] eqn:Hx; intros H.
    + apply execute_storage in Hx. apply IH in H. congruence.
    + apply execute_storage in Hx. by injection H as <- <-.
Qed.

(** A loop of statements on an open connection either runs through, or
    stops with a MySQL error. *)
Lemma for_each_execute_inv {A : Type} (f : A → Database → fitted Database)
    (l : list A) (w w' : World) (r : Outcome unit) (view : Database) :
  session w = Some view →
  for_each l (λ x, execute env (f x)) w = (r, w') →
  (r = Return () ∧ ∃ view',
      apply_each f l view = inr view' ∧
      w' = mkWorld (storage w) (Some view') (trips w + length l) ∧
      ∀ i, (trips w ≤ i < trips w + length l)%nat → link_up env i = true)
  ∨ (∃ e, r = Raise (Error e)).
Proof.
  revert w view. induction l as [|x l IH]; intros w view Hs; simpl.
  - intros [= <- <-]. left. split; [done|]. exists view. split; [done|].
    split; [|lia]. destruct w; simpl in *. subst. f_equal. lia.
  - munfold. unfold execute, round_trip. munfold. rewrite Hs.
    destruct (link_up env (trips w)) eqn:Hl; simpl.
    + destruct (f x view) as [e|view1] eqn:Hf; simpl.
      * intros [= <- <-]. right. eauto.
      * intros H. eapply (IH _ view1) in H; [|done].
        destruct H as [[-> (view' & Ha & -> & Hlk)]|H]; [|by right].
        left. split; [done|]. exists view'. simpl in *.
        split; [done|]. split; [f_equal; lia|].
        intros i Hi. destruct (decide (i = trips w)) as [->|]; [done|].
        apply Hlk. lia.
    + intros [= <- <-]. right. eauto.
Qed.

Lemma for_each_execute_run {A : Type} (f : A → Database → fitted Database)
    (l : list A) (w : World) (view view' : Database) :
  session w = Some view →
  apply_each f l view = inr view' →
  (∀ i, (trips w ≤ i < trips w + length l)%nat → link_up env i = true) →
  for_each l (λ x, execute env (f x)) w
  = (Return (), mkWorld (storage w) (Some view') (trips w + length l)).
Proof.
  revert w view. induction l as [|x l IH]; intros w view Hs; simpl.
  - intros [= <-] _. munfold. destruct w; simpl in *. subst.
    do 2 f_equal. lia.
  - intros Ha Hlk. munfold. unfold execute, round_trip. munfold. rewrite Hs.
    rewrite Hlk by lia. simpl.
    destruct (f x view) as [e|view1]; simpl in *; [done|].
    erewrite (IH _ view1); [|done|done|].
    + simpl. do 2 f_equal. lia.
    + simpl. intros i Hi. apply Hlk. lia.
Qed.

(** The [try] block of [backup] on an open connection. *)
Lemma backup_try_inv (data : BackupData.t) (w w' : World)
    (r : Outcome BackupResponse.t) (view : Database) :
  session w = Some view →
  backup_try env data w = (r, w') →
  (r = Return (backup_response data) ∧
   (∀ i, (trips w ≤ i < trips w + S (statements data))%nat → link_up env i = true) ∧
   apply_backup data view = inr (storage w'))
  ∨ (∃ e, r = Raise (Error e) ∧ storage w' = storage w).
Proof.
  intros Hs. unfold backup_try.
  unfold mbind at 1, M_bind at 1.
  destruct (for_each (BackupData.transactions data) _ w) as [r1 w1] eqn:H1.
  pose proof (for_each_execute_storage _ _ _ _ _ H1) as Hs1.
  apply (for_each_execute_inv _ _ _ _ _ view) in H1; [|done].
  destruct H1 as [[-> (v1 & Ha1 & -> & Hl1)]|[e ->]];
    [|intros [= <- <-]; right; eauto].
  unfold mbind at 1, M_bind at 1.
  destruct (for_each (BackupData.budgets data) _ _) as [r2 w2] eqn:H2.
  pose proof (for_each_execute_storage _ _ _ _ _ H2) as Hs2.
  apply (for_each_execute_inv _ _ _ _ _ v1) in H2; [|done].
  destruct H2 as [[-> (v2 & Ha2 & -> & Hl2)]|[e ->]];
    [|intros [= <- <-]; right; eauto].
  unfold mbind at 1, M_bind at 1.
  destruct (for_each (BackupData.categories data) _ _) as [r3 w3] eqn:H3.
  pose proof (for_each_execute_storage _ _ _ _ _ H3) as Hs3.
  apply (for_each_execute_inv _ _ _ _ _ v2) in H3; [|done].
  destruct H3 as [[-> (v3 & Ha3 & -> & Hl3)]|[e ->]];
    [|intros [= <- <-]; right; eauto].
  simpl in *. unfold commit, round_trip. munfold. simpl.
  destruct (link_up env _) eqn:Hl4; simpl;
    [|intros [= <- <-]; right; eauto].
  intros [= <- <-]. left. split; [done|]. simpl. split.
  - intros i Hi. unfold statements in Hi.
    destruct (decide (i < trips w + length (BackupData.transactions data))%nat);
      [apply Hl1; lia|].
    destruct (decide (i < trips w + length (BackupData.transactions data)
                         + length (BackupData.budgets data))%nat);
      [apply Hl2; lia|].
    destruct (decide (i < trips w + length (BackupData.transactions data)
                         + length (BackupData.budgets data)
                         + length (BackupData.categories data))%nat);
      [apply Hl3; lia|].
    replace i with (trips w + length (BackupData.transactions data)
                    + length (BackupData.budgets data)
                    + length (BackupData.categories data))%nat by lia.
    exact Hl4.
  - unfold apply_backup. rewrite Ha1. simpl. rewrite Ha2. simpl. exact Ha3.
Qed.

Lemma backup_try_run (data : BackupData.t) (w : World) (view view' : Database) :
  session w = Some view →
  apply_backup data view = inr view' →
  (∀ i, (trips w ≤ i < trips w + S (statements data))%nat → link_up env i = true) →
  backup_try env data w
  = (Return (backup_response data),
     mkWorld view' (Some view') (trips w + S (statements data))).
Proof.
  intros Hs Ha Hl. unfold apply_backup in Ha. unfold statements in Hl.
  destruct (apply_each _ (BackupData.transactions data) view)
    as [|v1] eqn:Ha1; [done|]. simpl in Ha.
  destruct (apply_each _ (BackupData.budgets data) v1)
    as [|v2] eqn:Ha2; [done|]. simpl in Ha.
  unfold backup_try.
  unfold mbind at 1, M_bind at 1.
  rewrite (for_each_execute_run _ _ _ view v1) by (auto; intros; apply Hl; lia).
  unfold mbind at 1, M_bind at 1.
  rewrite (for_each_execute_run _ _ _ v1 v2)
    by (auto; simpl; intros; apply Hl; lia).
  unfold mbind at 1, M_bind at 1.
  rewrite (for_each_execute_run _ _ _ v2 view')
    by (auto; simpl; intros; apply Hl; lia).
  unfold commit, round_trip. munfold. simpl.
  rewrite Hl; [|split; lia]. simpl. unfold backup_response, statements.
  do 2 f_equal. lia.
Qed.

Lemma rollback_raise_inv {A : Type} (x : Exception) (w w' : World)
    (r : Outcome A) :
  (rollback env ;; raise x) w = (r, w') →
  (∃ e, r = Raise e) ∧ storage w' = storage w.
Proof.
  unfold rollback. munfold.
  destruct (round_trip env w) as [[v|e1] w2] eqn:Hrt;
    apply round_trip_storage in Hrt; intros [= <- <-]; simpl;
    split; eauto.
Qed.
End HandlerFacts.

(** Every way a [Backup] call can end: it returns the success dictionary
    after committing all statements, or it raises and nothing of it is
    committed. *)
Lemma Backup_inv (env : Env) (db db' : Database) (data : BackupData.t)
    (r : Outcome BackupResponse.t) :
  Backup env db data = (r, db') →
  (r = Return (backup_response data) ∧
   obtains_connection env = true ∧
   link_holds env (S (S (statements data))) ∧
   apply_backup data db = inr db')
  ∨ (∃ e, r = Raise e ∧ db' = db).
Proof.
  unfold Backup, request, backup.
  unfold mbind at 1, M_bind at 1. rewrite get_db_connection_eq.
  unfold obtains_connection.
  destruct (vars_present env); [|intros [= <- <-]; right; eauto].
  destruct (server_accepts env); [|intros [= <- <-]; right; eauto].
  destruct (is_connected env); [|munfold; intros [= <- <-]; right; eauto].
  simpl. munfold. simpl.
  destruct (link_up env 0) eqn:H0; [|intros [= <- <-]; right; eauto].
  destruct (backup_try env data _) as [r1 w1] eqn:Ht.
  apply (backup_try_inv _ _ _ _ _ db) in Ht; [|done].
  destruct Ht as [(-> & Hl & Ha)|(e & -> & Hs)].
  - intros [= <- <-]. left. repeat split; try done.
    intros i Hi. destruct i as [|i]; [done|]. apply Hl. simpl. lia.
  - simpl. destruct ((rollback env ≫= _) w1) as [r0 w'] eqn:Hh.
    apply (rollback_raise_inv env) in Hh as [[e0 ->] Hw'].
    intros [= <- <-]. right. exists e0. split; [done|]. simpl in *. congruence.
Qed.

Lemma Backup_run (env : Env) (db db' : Database) (data : BackupData.t) :
  obtains_connection env = true →
  link_holds env (S (S (statements data))) →
  apply_backup data db = inr db' →
  Backup env db data = (Return (backup_response data), db').
Proof.
  intros Hc Hl Ha. unfold Backup, request, backup.
  unfold mbind at 1, M_bind at 1. rewrite get_db_connection_eq.
  unfold obtains_connection in Hc.
  destruct (vars_present env); [|done].
  destruct (server_accepts env); [|done].
  destruct (is_connected env); [|done].
  simpl. munfold. simpl. rewrite Hl by lia.
  rewrite (backup_try_run env data _ db db'); [done|done|done|].
  simpl. intros i Hi. apply Hl. lia.
Qed.

(** Every way a [Restore] call can end. *)
Lemma Restore_inv (env : Env) (db db' : Database) (r : Outcome RestoreResponse.t) :
  Restore env db = (r, db') →
  db' = db ∧
  ((r = Return (restore_response db) ∧
    obtains_connection env = true ∧ link_holds env 4)
   ∨ ∃ e, r = Raise e).
Proof.
  unfold Restore, request, restore.
  unfold mbind at 1, M_bind at 1. rewrite get_db_connection_eq.
  unfold obtains_connection.
  destruct (vars_present env); [|intros [= <- <-]; eauto].
  destruct (server_accepts env); [|intros [= <- <-]; eauto].
  destruct (is_connected env); [|munfold; intros [= <- <-]; eauto].
  simpl. unfold restore_try, execute_fetchall, round_trip. munfold. simpl.
  destruct (link_up env 0) eqn:H0; simpl; [|intros [= <- <-]; eauto].
  destruct (link_up env 1) eqn:H1; simpl; [|intros [= <- <-]; eauto].
  destruct (link_up env 2) eqn:H2; simpl; [|intros [= <- <-]; eauto].
  destruct (link_up env 3) eqn:H3; simpl; [|intros [= <- <-]; eauto].
  intros [= <- <-]. split; [done|]. left. repeat split; try done.
  intros i Hi. destruct i as [|[|[|[|i]]]]; try done. lia.
Qed.

Lemma Restore_run (env : Env) (db : Database) :
  obtains_connection env = true →
  link_holds env 4 →
  Restore env db = (Return (restore_response db), db).
Proof.
  intros Hc Hl. unfold Restore, request, restore.
  unfold mbind at 1, M_bind at 1. rewrite get_db_connection_eq.
  unfold obtains_connection in Hc.
  destruct (vars_present env); [|done].
  destruct (server_accepts env); [|done].
  destruct (is_connected env); [|done].
  simpl. unfold restore_try, execute_fetchall, round_trip. munfold. simpl.
  repeat (rewrite Hl by lia; simpl). done.
Qed.

Lemma healthy_link_holds (env : Env) (n : nat) : healthy env → link_holds env n.
Proof. intros [_ H] i _. apply H. Qed.

(** ** Order of the restored transactions *)

#[global] Instance date_desc_trans : Transitive date_desc.
Proof. intros x y z Hxy Hyz. unfold date_desc in *. by etrans. Qed.

#[global] Instance date_desc_total : Total date_desc.
Proof. intros x y. unfold date_desc. destruct (total String.le (transactions.date x.2) (transactions.date y.2)); auto. Qed.


(** * Facts about the statements *)

Lemma apply_each_transactions (l : list Transaction.t) (db : Database) :
  apply_each replace_into_transactions l db
  = fit vs <- values_each transactions_values l;
    inr (with_transactions (replace_transactions_rows (collation db) vs) db).
Proof.
  revert db. induction l as [|x l IH]; intros db; simpl.
  - by destruct db.
  - unfold replace_into_transactions at 1.
    destruct (transactions_values x) as [e|v]; simpl; [done|].
    rewrite IH. by destruct (values_each _ l).
Qed.

Lemma apply_each_budgets (l : list Budget.t) (db : Database) :
  apply_each replace_into_budgets l db
  = fit vs <- values_each budgets_values l;
    inr (with_budgets (replace_budgets_rows (collation db) vs) db).
Proof.
  revert db. induction l as [|x l IH]; intros db; simpl.
  - by destruct db.
  - unfold replace_into_budgets at 1.
    destruct (budgets_values x) as [e|v]; simpl; [done|].
    rewrite IH. by destruct (values_each _ l).
Qed.

Lemma apply_each_categories (l : list Category.t) (db : Database) :
  apply_each insert_into_categories l db
  = fit vs <- values_each categories_values l;
    inr (with_categories (upsert_categories_rows (collation db) vs) db).
Proof.
  revert db. induction l as [|x l IH]; intros db; simpl.
  - by destruct db.
  - unfold insert_into_categories at 1.
    destruct (categories_values x) as [e|v]; simpl; [done|].
    rewrite IH. by destruct (values_each _ l).
Qed.

(** The three loops touch one table each. *)
Lemma apply_backup_eq (data : BackupData.t) (db : Database) :
  apply_backup data db
  = fit tvs <- values_each transactions_values (BackupData.transactions data);
    fit bvs <- values_each budgets_values (BackupData.budgets data);
    fit cvs <- values_each categories_values (BackupData.categories data);
    inr (mkDatabase (collation db)
           (replace_transactions_rows (collation db) tvs (tbl_transactions db))
           (replace_budgets_rows (collation db) bvs (tbl_budgets db))
           (upsert_categories_rows (collation db) cvs (tbl_categories db))).
Proof.
  unfold apply_backup. rewrite apply_each_transactions.
  destruct (values_each _ (BackupData.transactions data)) as [e|tvs]; simpl; [done|].
  rewrite apply_each_budgets.
  destruct (values_each _ (BackupData.budgets data)) as [e|bvs]; simpl; [done|].
  rewrite apply_each_categories.
  by destruct (values_each _ (BackupData.categories data)) as [e|cvs].
Qed.

Lemma apply_backup_inr (data : BackupData.t) (db db' : Database) :
  apply_backup data db = inr db' ↔
  ∃ tvs bvs cvs,
    values_each transactions_values (BackupData.transactions data) = inr tvs ∧
    values_each budgets_values (BackupData.budgets data) = inr bvs ∧
    values_each categories_values (BackupData.categories data) = inr cvs ∧
    db' = mkDatabase (collation db)
            (replace_transactions_rows (collation db) tvs (tbl_transactions db))
            (replace_budgets_rows (collation db) bvs (tbl_budgets db))
            (upsert_categories_rows (collation db) cvs (tbl_categories db)).
Proof.
  rewrite apply_backup_eq. split.
  - destruct (values_each _ (BackupData.transactions data)) as [e|tvs]; simpl; [done|].
    destruct (values_each _ (BackupData.budgets data)) as [e|bvs]; simpl; [done|].
    destruct (values_each _ (BackupData.categories data)) as [e|cvs]; simpl; [done|].
    intros [= <-]. by exists tvs, bvs, cvs.
  - intros (tvs & bvs & cvs & -> & -> & -> & ->). done.
Qed.

Lemma values_each_app_eq {A V : Type} (f : A → fitted V) (l1 l2 : list A) :
  values_each f (l1 ++ l2)
  = fit vs1 <- values_each f l1; fit vs2 <- values_each f l2; inr (vs1 ++ vs2).
Proof.
  induction l1 as [|x l1 IH]; simpl.
  - by destruct (values_each f l2).
  - destruct (f x) as [e|v]; simpl; [done|]. rewrite IH.
    destruct (values_each f l1) as [e|vs1]; simpl; [done|].
    by destruct (values_each f l2).
Qed.

Lemma values_each_app {A V : Type} (f : A → fitted V) (l1 l2 : list A)
    (vs : list V) :
  values_each f (l1 ++ l2) = inr vs ↔
  ∃ vs1 vs2, values_each f l1 = inr vs1 ∧ values_each f l2 = inr vs2
             ∧ vs = vs1 ++ vs2.
Proof.
  rewrite values_each_app_eq.
  destruct (values_each f l1) as [e|vs1]; simpl.
  { split; [done|]. by intros (? & ? & ? & _). }
  destruct (values_each f l2) as [e|vs2]; simpl.
  { split; [done|]. by intros (? & ? & _ & ? & _). }
  split.
  - intros [= <-]. by exists vs1, vs2.
  - by intros (? & ? & [= <-] & [= <-] & ->).
Qed.

Lemma values_each_elem {A V : Type} (f : A → fitted V) (l : list A)
    (vs : list V) :
  values_each f l = inr vs →
  (∀ x, x ∈ l → ∃ v, f x = inr v ∧ v ∈ vs) ∧
  (∀ v, v ∈ vs → ∃ x, x ∈ l ∧ f x = inr v) ∧
  length vs = length l.
Proof.
  revert vs. induction l as [|x l IH]; intros vs; simpl.
  - intros [= <-]. split; [|split]; [| |done].
    + intros x Hx. by apply elem_of_nil in Hx.
    + intros v Hv. by apply elem_of_nil in Hv.
  - destruct (f x) as [e|v] eqn:Hfx; simpl; [done|].
    destruct (values_each f l) as [e|vs'] eqn:Hl; simpl; [done|].
    intros [= <-]. destruct (IH vs' eq_refl) as (H1 & H2 & H3).
    split; [|split].
    + intros y [->|Hy]%elem_of_cons.
      * exists v. split; [done|]. set_solver.
      * destruct (H1 y Hy) as (w & ? & ?). exists w. split; [done|]. set_solver.
    + intros w [->|Hw]%elem_of_cons.
      * exists x. split; [set_solver|done].
      * destruct (H2 w Hw) as (y & ? & ?). exists y. split; [set_solver|done].
    + simpl. by rewrite H3.
Qed.

(** ** [REPLACE INTO] *)

Section Replace.
Context {V : Type} (collide : relation (string * V)) `{!RelDecision collide}.

Lemma replace_row_lookup (v : string * V) (m : gmap string V) k :
  replace_row collide v m !! k =
    if decide (k = v.1) then Some v.2
    else match m !! k with
         | Some r => if decide (collide (k, r) v) then None else Some r
         | None => None
         end.
Proof.
  unfold replace_row. rewrite lookup_insert.
  destruct (decide (v.1 = k)) as [<-|Hne].
  - by rewrite decide_True.
  - rewrite decide_False by done. rewrite map_lookup_filter.
    destruct (m !! k) as [r|]; simpl; [|done].
    destruct (decide (collide (k, r) v)) as [He|He].
    + rewrite option_guard_False; [done|]. simpl. tauto.
    + by rewrite option_guard_True.
Qed.

Lemma replace_rows_cons v vs (m : gmap string V) :
  replace_rows collide (v :: vs) m
  = replace_rows collide vs (replace_row collide v m).
Proof. done. Qed.

Lemma replace_rows_app vs1 vs2 (m : gmap string V) :
  replace_rows collide (vs1 ++ vs2) m
  = replace_rows collide vs2 (replace_rows collide vs1 m).
Proof. unfold replace_rows. apply foldl_app. Qed.

(** A row under an id that is not submitted is kept or deleted. *)
Lemma replace_rows_other vs (m : gmap string V) k :
  k ∉ vs.*1 →
  replace_rows collide vs m !! k = m !! k
  ∨ replace_rows collide vs m !! k = None.
Proof.
  revert m. induction vs as [|v vs IH]; intros m Hk; [by left|].
  rewrite replace_rows_cons.
  destruct (IH (replace_row collide v m)) as [->| ->]; [set_solver| |by right].
  rewrite replace_row_lookup, decide_False by set_solver.
  destruct (m !! k) as [r|]; [|by left].
  destruct (decide _); [by right|by left].
Qed.

(** A row with which no submitted tuple collides stays as it is. *)
Lemma replace_rows_untouched vs (m : gmap string V) k r :
  m !! k = Some r →
  (∀ u, u ∈ vs → u.1 ≠ k ∧ ¬ collide (k, r) u) →
  replace_rows collide vs m !! k = Some r.
Proof.
  revert m. induction vs as [|v vs IH]; intros m Hk Hvs; [done|].
  rewrite replace_rows_cons. apply IH.
  - destruct (Hvs v) as [Hid Hc]; [left|].
    rewrite replace_row_lookup, decide_False, Hk by done.
    by rewrite decide_False.
  - intros u Hu. apply Hvs. by right.
Qed.

(** Every stored row is an old row or a submitted tuple. *)
Lemma replace_rows_origin vs (m : gmap string V) k r :
  replace_rows collide vs m !! k = Some r → (k, r) ∈ vs ∨ m !! k = Some r.
Proof.
  revert m. induction vs as [|v vs IH]; intros m; [by right|].
  rewrite replace_rows_cons. intros H.
  apply IH in H as [H|H]; [left; set_solver|].
  rewrite replace_row_lookup in H.
  destruct (decide (k = v.1)) as [->|Hne].
  - injection H as <-. left. destruct v. set_solver.
  - destruct (m !! k) as [r'|]; [|done].
    destruct (decide _); [done|]. by right.
Qed.

(** Two tables end up equal when each id holds the same row in both, or
    is submitted, or is free in the one and freed in the other. *)
Lemma replace_rows_overwrite vs (m m' : gmap string V) :
  (∀ k, m' !! k = m !! k ∨ k ∈ vs.*1
        ∨ (m' !! k = None ∧ replace_rows collide vs m !! k = None)) →
  replace_rows collide vs m' = replace_rows collide vs m.
Proof.
  revert m m'. induction vs as [|v vs IH]; intros m m' H.
  - apply map_eq. intros k. destruct (H k) as [?|[Hk|[? ?]]];
      [done|set_solver|]. simpl in *. congruence.
  - rewrite !replace_rows_cons. apply IH. intros k.
    rewrite !replace_row_lookup.
    destruct (decide (k = v.1)) as [->|Hne]; [by left|].
    destruct (H k) as [->|[Hk|[Hk Hn]]].
    + by left.
    + right. left. set_solver.
    + rewrite Hk. right. right. done.
Qed.

Lemma replace_rows_idempotent vs (m : gmap string V) :
  replace_rows collide vs (replace_rows collide vs m)
  = replace_rows collide vs m.
Proof.
  apply replace_rows_overwrite. intros k.
  destruct (decide (k ∈ vs.*1)); [by right; left|].
  destruct (replace_rows_other vs m k) as [?|?]; [done|by left|].
  right. right. done.
Qed.

Context `{!Symmetric collide}.

Lemma replace_row_collision_free v (m : gmap string V) :
  collision_free collide m → collision_free collide (replace_row collide v m).
Proof.
  intros Hm k1 k2 r1 r2. rewrite !replace_row_lookup.
  destruct (decide (k1 = v.1)) as [->|H1], (decide (k2 = v.1)) as [->|H2];
    [done|..].
  - intros [= <-]. destruct (m !! k2) as [r|]; [|done].
    destruct (decide _) as [|Hc]; [done|]. intros [= <-] E.
    destruct Hc. symmetry. by destruct v.
  - destruct (m !! k1) as [r|]; [|done].
    destruct (decide _) as [|Hc]; [done|]. intros [= <-] [= <-] E.
    destruct Hc. by destruct v.
  - destruct (m !! k1) as [r|] eqn:E1; [|done].
    destruct (decide _); [done|]. intros [= <-].
    destruct (m !! k2) as [r'|] eqn:E2; [|done].
    destruct (decide _); [done|]. intros [= <-]. by apply Hm.
Qed.

Lemma replace_rows_collision_free vs (m : gmap string V) :
  collision_free collide m → collision_free collide (replace_rows collide vs m).
Proof.
  revert m. induction vs as [|v vs IH]; intros m Hm; [done|].
  rewrite replace_rows_cons. by apply IH, replace_row_collision_free.
Qed.

(** After [REPLACE], the tuple is stored and is the only row that
    collides with it; later tuples that do not collide with it leave it
    so. *)
Lemma replace_rows_last pre v post (m : gmap string V) :
  (∀ u, u ∈ post → u.1 ≠ v.1 ∧ ¬ collide u v) →
  replace_rows collide (pre ++ v :: post) m !! v.1 = Some v.2 ∧
  ∀ k r, replace_rows collide (pre ++ v :: post) m !! k = Some r →
         collide (k, r) v → k = v.1.
Proof.
  intros Hpost. rewrite replace_rows_app, replace_rows_cons.
  set (m1 := replace_row collide v (replace_rows collide pre m)).
  assert (H1 : m1 !! v.1 = Some v.2 ∧
               ∀ k r, m1 !! k = Some r → collide (k, r) v → k = v.1).
  { unfold m1. split.
    - by rewrite replace_row_lookup, decide_True.
    - intros k r. rewrite replace_row_lookup.
      destruct (decide (k = v.1)); [done|].
      destruct (_ !! k) as [r'|]; [|done].
      destruct (decide _); [done|]. intros [= ->]. done. }
  clearbody m1. revert m1 H1.
  induction post as [|u post IH]; intros m1 H1; [done|].
  rewrite replace_rows_cons. apply IH; [set_solver|].
  destruct H1 as [Hv Hu]. destruct (Hpost u) as [Hid Hcat]; [set_solver|].
  split.
  - rewrite replace_row_lookup, decide_False by done.
    rewrite Hv. rewrite decide_False; [done|].
    intros Hc. apply Hcat. symmetry. by destruct v.
  - intros k r. rewrite replace_row_lookup.
    destruct (decide (k = u.1)) as [->|Hk].
    + intros [= <-] Hc. destruct Hcat. by destruct u.
    + destruct (m1 !! k) as [r'|] eqn:Hr'; [|done].
      destruct (decide _); [done|]. intros [= ->]. by apply Hu.
Qed.

(** Tuples of which none collides with a later one are all stored. *)
Lemma replace_rows_distinct vs k r :
  (∀ pre v post u, vs = pre ++ v :: post → u ∈ post →
     u.1 ≠ v.1 ∧ ¬ collide u v) →
  replace_rows collide vs ∅ !! k = Some r ↔ (k, r) ∈ vs.
Proof.
  intros Hd. split.
  - intros H. apply replace_rows_origin in H as [H|H]; [done|].
    by rewrite lookup_empty in H.
  - intros H. apply list_elem_of_split in H as (pre & post & ->).
    apply (replace_rows_last pre (k, r) post).
    intros u Hu. by apply (Hd pre (k, r) post u).
Qed.
End Replace.
(** ** The transactions table and the budgets table *)

#[global] Instance same_transaction_sym key : Symmetric (same_transaction key).
Proof. intros a b. unfold same_transaction. congruence. Qed.

#[global] Instance same_budget_sym key : Symmetric (same_budget key).
Proof. intros a b. unfold same_budget. intros [?|?]; [left|right]; congruence. Qed.

Lemma ids_unique_transactions key (m : gmap string transactions.row) :
  ids_unique key m ↔ collision_free (same_transaction key) m.
Proof. done. Qed.

Lemma keys_unique_budgets key (m : gmap string budgets.row) :
  ids_unique key m ∧ categories_unique key m
  ↔ collision_free (same_budget key) m.
Proof.
  split.
  - intros [Hi Hc] k1 k2 r1 r2 H1 H2 [E|E]; [by eapply Hi|by eapply Hc].
  - intros H. split; intros k1 k2 r1 r2 H1 H2 E;
      apply (H k1 k2 r1 r2 H1 H2); [by left|by right].
Qed.

(** A stored transaction stays stored, under its id or under an id that
    is the same key. *)
Lemma replace_transactions_rows_keeps key vs
    (m : gmap string transactions.row) k :
  is_Some (m !! k) →
  ∃ k', key k' = key k ∧ is_Some (replace_transactions_rows key vs m !! k').
Proof.
  revert m k. induction vs as [|v vs IH]; intros m k Hk; [by exists k|].
  unfold replace_transactions_rows. rewrite replace_rows_cons.
  destruct (decide (key v.1 = key k)) as [E|E].
  - destruct (IH (replace_row (same_transaction key) v m) v.1) as (k' & E' & H').
    + rewrite replace_row_lookup, decide_True by done. eauto.
    + exists k'. split; [congruence|done].
  - apply IH. destruct Hk as [r Hr].
    rewrite replace_row_lookup, decide_False, Hr by congruence.
    rewrite decide_False; [eauto|].
    unfold same_transaction. simpl. congruence.
Qed.

Lemma NoDup_fmap_split {A B : Type} (f : A → B) (pre post : list A) (v u : A) :
  NoDup (f <$> (pre ++ v :: post)) → u ∈ post → f u ≠ f v.
Proof.
  rewrite fmap_app, fmap_cons. intros H%NoDup_app Hu Heq.
  destruct H as (_ & _ & H). apply NoDup_cons in H as [H _].
  apply H. rewrite <- Heq. by apply list_elem_of_fmap_2.
Qed.

Lemma replace_transactions_rows_NoDup key vs k r :
  NoDup (key <$> vs.*1) →
  replace_transactions_rows key vs ∅ !! k = Some r ↔ (k, r) ∈ vs.
Proof.
  intros Hnd. apply replace_rows_distinct; [apply _|].
  intros pre v post u -> Hu.
  rewrite <- list_fmap_compose in Hnd.
  pose proof (NoDup_fmap_split (key ∘ fst) pre post v u Hnd Hu) as Hne.
  simpl in Hne. split; [congruence|done].
Qed.

Lemma replace_budgets_rows_NoDup key vs k r :
  NoDup (key <$> vs.*1) →
  NoDup (key ∘ budgets.category <$> vs.*2) →
  replace_budgets_rows key vs ∅ !! k = Some r ↔ (k, r) ∈ vs.
Proof.
  intros Hid Hcat. apply replace_rows_distinct; [apply _|].
  intros pre v post u -> Hu.
  rewrite <- list_fmap_compose in Hid. rewrite <- list_fmap_compose in Hcat.
  pose proof (NoDup_fmap_split (key ∘ fst) pre post v u Hid Hu) as Hne.
  pose proof (NoDup_fmap_split ((key ∘ budgets.category) ∘ snd) pre post v u
                Hcat Hu) as Hne'.
  simpl in Hne, Hne'. split; [congruence|].
  unfold same_budget. tauto.
Qed.
(** ** The categories table *)

Lemma set_icon_icon (r : categories.row) :
  categories.set_icon (categories.icon r) r = r.
Proof. by destruct r. Qed.

Lemma set_icon_set_icon i j (r : categories.row) :
  categories.set_icon i (categories.set_icon j r) = categories.set_icon i r.
Proof. done. Qed.

Lemma head_filter_Some {V : Type} (P : string * V → Prop)
    `{!∀ x, Decision (P x)} (m : gmap string V) k r :
  head (map_to_list (filter P m)) = Some (k, r) → m !! k = Some r ∧ P (k, r).
Proof.
  intros Hh. apply head_Some_elem_of in Hh.
  apply elem_of_map_to_list in Hh. by apply map_lookup_filter_Some in Hh.
Qed.

Lemma head_filter_None {V : Type} (P : string * V → Prop)
    `{!∀ x, Decision (P x)} (m : gmap string V) k r :
  head (map_to_list (filter P m)) = None → m !! k = Some r → ¬ P (k, r).
Proof.
  intros Hh Hk HP. apply head_None in Hh.
  apply map_to_list_empty_iff in Hh.
  assert (Hf : filter P m !! k = Some r) by (by apply map_lookup_filter_Some).
  rewrite Hh in Hf. by rewrite lookup_empty in Hf.
Qed.

Section Categories.
Variable key : Collation.
Implicit Types (m : gmap string categories.row) (v u : string * categories.row).

Lemma lookup_id_Some i m k r :
  lookup_id key i m = Some (k, r) → m !! k = Some r ∧ key k = key i.
Proof. intros H. by apply head_filter_Some in H. Qed.

Lemma lookup_id_None i m k r :
  lookup_id key i m = None → m !! k = Some r → key k ≠ key i.
Proof. intros H Hk. by apply (head_filter_None _ m k r) in H. Qed.

Lemma lookup_id_unique i m k r :
  ids_unique key m → m !! k = Some r → key k = key i →
  lookup_id key i m = Some (k, r).
Proof.
  intros Hu Hk Hi. destruct (lookup_id key i m) as [[k' r']|] eqn:H.
  - apply lookup_id_Some in H as [Hk' Hi'].
    assert (k' = k) as -> by (eapply Hu; [done..|congruence]). congruence.
  - exfalso. by eapply lookup_id_None.
Qed.

Lemma lookup_name_Some n m k r :
  lookup_name key n m = Some (k, r) →
  m !! k = Some r ∧ key (categories.name r) = key n.
Proof. intros H. by apply head_filter_Some in H. Qed.

Lemma lookup_name_None n m k r :
  lookup_name key n m = None → m !! k = Some r →
  key (categories.name r) ≠ key n.
Proof. intros H Hk. by apply (head_filter_None _ m k r) in H. Qed.

Lemma lookup_name_unique n m k r :
  names_unique key m → m !! k = Some r → key (categories.name r) = key n →
  lookup_name key n m = Some (k, r).
Proof.
  intros Hu Hk Hn. destruct (lookup_name key n m) as [[k' r']|] eqn:H.
  - apply lookup_name_Some in H as [Hk' Hn'].
    assert (k' = k) as -> by (eapply Hu; [done..|congruence]). congruence.
  - exfalso. by eapply lookup_name_None.
Qed.

(** Where the statement writes. *)
Lemma target_primary v m k r :
  ids_unique key m → m !! k = Some r → key k = key v.1 → target key v m = k.
Proof.
  intros Hu Hk Hi. unfold target. by rewrite (lookup_id_unique v.1 m k r).
Qed.

Lemma target_hit v m r :
  m !! target key v m = Some r →
  key (target key v m) = key v.1
  ∨ ((∀ k' r', m !! k' = Some r' → key k' ≠ key v.1)
     ∧ key (categories.name r) = key (categories.name v.2)).
Proof.
  unfold target. destruct (lookup_id key v.1 m) as [[k r0]|] eqn:Hv.
  { apply lookup_id_Some in Hv as [_ Hi]. by left. }
  destruct (lookup_name key _ m) as [[k r']|] eqn:Hn; [|by left].
  apply lookup_name_Some in Hn as [Hk Hn]. intros H. right. split.
  - intros k' r'0. by apply lookup_id_None.
  - congruence.
Qed.

Lemma target_miss v m :
  m !! target key v m = None →
  target key v m = v.1 ∧
  ∀ k r, m !! k = Some r →
    key k ≠ key v.1 ∧ key (categories.name r) ≠ key (categories.name v.2).
Proof.
  unfold target. destruct (lookup_id key v.1 m) as [[k r0]|] eqn:Hv.
  { apply lookup_id_Some in Hv as [Hk _]. congruence. }
  destruct (lookup_name key _ m) as [[k r']|] eqn:Hn.
  - apply lookup_name_Some in Hn as [Hk Hn]. congruence.
  - intros _. split; [done|]. intros k r Hk. split.
    + by eapply lookup_id_None.
    + by eapply lookup_name_None.
Qed.

Lemma target_name v m k r :
  names_unique key m →
  (∀ k' r', m !! k' = Some r' → key k' ≠ key v.1) →
  m !! k = Some r →
  key (categories.name r) = key (categories.name v.2) →
  target key v m = k.
Proof.
  intros Hu Hv Hk Hn. unfold target.
  destruct (lookup_id key v.1 m) as [[k0 r0]|] eqn:Hi.
  { apply lookup_id_Some in Hi as [Hk0 Hi]. by destruct (Hv k0 r0). }
  by rewrite (lookup_name_unique _ m k r).
Qed.

(** The statement, row by row. *)
Lemma upsert_categories_row_lookup v m k :
  upsert_categories_row key v m !! k =
    if decide (k = target key v m) then
      Some (match m !! k with
            | Some old => categories.set_icon (categories.icon v.2) old
            | None => v.2
            end)
    else m !! k.
Proof.
  unfold upsert_categories_row, target.
  destruct (lookup_id key v.1 m) as [[k' old]|] eqn:Hv.
  - apply lookup_id_Some in Hv as [Hk' _].
    rewrite lookup_insert. destruct (decide (k' = k)) as [<-|Hne].
    + by rewrite decide_True, Hk'.
    + by rewrite decide_False.
  - destruct (lookup_name key _ m) as [[k' old]|] eqn:Hn.
    + apply lookup_name_Some in Hn as [Hk' Hn].
      rewrite lookup_insert. destruct (decide (k' = k)) as [<-|Hne].
      * by rewrite decide_True, Hk'.
      * by rewrite decide_False.
    + rewrite lookup_insert. destruct (decide (v.1 = k)) as [<-|Hne].
      * rewrite decide_True by done.
        destruct (m !! v.1) as [r|] eqn:Hr; [|done].
        by destruct (lookup_id_None _ _ _ _ Hv Hr).
      * by rewrite decide_False.
Qed.

Lemma upsert_categories_rows_cons v vs m :
  upsert_categories_rows key (v :: vs) m
  = upsert_categories_rows key vs (upsert_categories_row key v m).
Proof. done. Qed.

Lemma upsert_categories_rows_app vs1 vs2 m :
  upsert_categories_rows key (vs1 ++ vs2) m
  = upsert_categories_rows key vs2 (upsert_categories_rows key vs1 m).
Proof. unfold upsert_categories_rows. apply foldl_app. Qed.

(** A stored row keeps everything but its icon. *)
Lemma upsert_categories_row_keeps v m k r :
  m !! k = Some r →
  ∃ i, upsert_categories_row key v m !! k = Some (categories.set_icon i r).
Proof.
  intros Hk. rewrite upsert_categories_row_lookup, Hk.
  destruct (decide _); [by eexists|].
  exists (categories.icon r). by rewrite set_icon_icon.
Qed.

Lemma upsert_categories_rows_keeps vs m k r :
  m !! k = Some r →
  ∃ i, upsert_categories_rows key vs m !! k = Some (categories.set_icon i r).
Proof.
  revert m r. induction vs as [|v vs IH]; intros m r Hk.
  - exists (categories.icon r). by rewrite set_icon_icon.
  - rewrite upsert_categories_rows_cons.
    destruct (upsert_categories_row_keeps v m k r Hk) as [i Hi].
    destruct (IH _ _ Hi) as [j Hj]. exists j. by rewrite Hj.
Qed.

(** Where a row of the new table comes from. *)
Lemma upsert_categories_row_origin v m k r' :
  upsert_categories_row key v m !! k = Some r' →
  (∃ r, m !! k = Some r ∧ r' = categories.set_icon (categories.icon r') r)
  ∨ (k = v.1 ∧ r' = v.2 ∧
     ∀ k0 r0, m !! k0 = Some r0 →
       key k0 ≠ key v.1
       ∧ key (categories.name r0) ≠ key (categories.name v.2)).
Proof.
  rewrite upsert_categories_row_lookup.
  destruct (decide (k = target key v m)) as [->|Hne].
  - destruct (m !! target key v m) as [old|] eqn:Ht.
    + intros [= <-]. left. by exists old.
    + intros [= <-]. apply target_miss in Ht as [Ht Hnone]. by right.
  - intros H. left. exists r'. by rewrite set_icon_icon.
Qed.

Lemma upsert_categories_row_names_unique v m :
  names_unique key m → names_unique key (upsert_categories_row key v m).
Proof.
  intros Hu k1 k2 r1 r2 H1 H2 Hn.
  apply upsert_categories_row_origin in H1 as [(o1 & Ho1 & E1)|(-> & -> & Hf1)];
  apply upsert_categories_row_origin in H2 as [(o2 & Ho2 & E2)|(-> & -> & Hf2)].
  - apply (Hu k1 k2 o1 o2); [done..|].
    rewrite E1, E2 in Hn. done.
  - exfalso. apply (proj2 (Hf2 k1 o1 Ho1)). rewrite E1 in Hn. done.
  - exfalso. apply (proj2 (Hf1 k2 o2 Ho2)). rewrite E2 in Hn. done.
  - done.
Qed.

Lemma upsert_categories_row_ids_unique v m :
  ids_unique key m → ids_unique key (upsert_categories_row key v m).
Proof.
  intros Hu k1 k2 r1 r2 H1 H2 Hn.
  apply upsert_categories_row_origin in H1 as [(o1 & Ho1 & E1)|(-> & -> & Hf1)];
  apply upsert_categories_row_origin in H2 as [(o2 & Ho2 & E2)|(-> & -> & Hf2)].
  - by apply (Hu k1 k2 o1 o2).
  - exfalso. by apply (proj1 (Hf2 k1 o1 Ho1)).
  - exfalso. by apply (proj1 (Hf1 k2 o2 Ho2)).
  - done.
Qed.

Lemma upsert_categories_rows_names_unique vs m :
  names_unique key m → names_unique key (upsert_categories_rows key vs m).
Proof.
  revert m. induction vs as [|v vs IH]; intros m Hu; [done|].
  rewrite upsert_categories_rows_cons.
  by apply IH, upsert_categories_row_names_unique.
Qed.

Lemma upsert_categories_rows_ids_unique vs m :
  ids_unique key m → ids_unique key (upsert_categories_rows key vs m).
Proof.
  revert m. induction vs as [|v vs IH]; intros m Hu; [done|].
  rewrite upsert_categories_rows_cons.
  by apply IH, upsert_categories_row_ids_unique.
Qed.

Lemma names_unique_empty : names_unique key ∅.
Proof. intros k1 k2 r1 r2 H. by rewrite lookup_empty in H. Qed.

Lemma ids_unique_empty {V : Type} : ids_unique key (∅ : gmap string V).
Proof. intros k1 k2 r1 r2 H. by rewrite lookup_empty in H. Qed.

(** A row that no tuple reaches, by its id or by its name, stays as it
    is. *)
Lemma upsert_categories_row_untouched v m k r :
  m !! k = Some r → key v.1 ≠ key k →
  key (categories.name v.2) ≠ key (categories.name r) →
  upsert_categories_row key v m !! k = Some r.
Proof.
  intros Hk Hid Hn. rewrite upsert_categories_row_lookup.
  destruct (decide (k = target key v m)) as [->|]; [|done].
  exfalso. apply target_hit in Hk as H. destruct H as [H|[_ H]]; congruence.
Qed.

Lemma upsert_categories_rows_untouched vs m k r :
  m !! k = Some r →
  (∀ u, u ∈ vs → key u.1 ≠ key k
                 ∧ key (categories.name u.2) ≠ key (categories.name r)) →
  upsert_categories_rows key vs m !! k = Some r.
Proof.
  revert m. induction vs as [|v vs IH]; intros m Hk Hvs; [done|].
  rewrite upsert_categories_rows_cons. apply IH; [|set_solver].
  destruct (Hvs v) as [? ?]; [set_solver|].
  by apply upsert_categories_row_untouched.
Qed.

(** No row appears under an id when each tuple with that id finds a
    stored row to write to. *)
Lemma upsert_categories_rows_None vs m x :
  m !! x = None →
  (∀ u, u ∈ vs → u.1 = x →
        ∃ k r, m !! k = Some r
               ∧ (key k = key x
                  ∨ key (categories.name r) = key (categories.name u.2))) →
  upsert_categories_rows key vs m !! x = None.
Proof.
  revert m. induction vs as [|v vs IH]; intros m Hx Hvs; [done|].
  rewrite upsert_categories_rows_cons. apply IH.
  - rewrite upsert_categories_row_lookup.
    destruct (decide (x = target key v m)) as [Ht|]; [|done].
    exfalso. rewrite Ht in Hx. apply target_miss in Hx as [Hv Hnone].
    destruct (Hvs v) as (k & r & Hk & Hn); [set_solver|congruence|].
    destruct (Hnone k r Hk) as [Hi Hm]. destruct Hn as [Hn|Hn]; [|done].
    apply Hi. congruence.
  - intros u Hu Hux. destruct (Hvs u) as (k & r & Hk & Hn); [set_solver|done|].
    destruct (upsert_categories_row_keeps v m k r Hk) as [i Hi].
    exists k, (categories.set_icon i r). done.
Qed.

(** No row appears under an id that is the same key as [x] when the
    table has none and each tuple with such an id finds its name
    stored. *)
Lemma upsert_categories_rows_no_id vs m x :
  (∀ k r, m !! k = Some r → key k ≠ key x) →
  (∀ u, u ∈ vs → key u.1 = key x →
        ∃ k r, m !! k = Some r
               ∧ key (categories.name r) = key (categories.name u.2)) →
  ∀ k r, upsert_categories_rows key vs m !! k = Some r → key k ≠ key x.
Proof.
  revert m. induction vs as [|v vs IH]; intros m Hm Hvs; [done|].
  rewrite upsert_categories_rows_cons. apply IH.
  - intros k r Hk.
    apply upsert_categories_row_origin in Hk as [(o & Ho & _)|(-> & -> & Hf)].
    + by eapply Hm.
    + intros E. destruct (Hvs v) as (k & r & Hk & Hn); [set_solver|done|].
      by destruct (Hf k r Hk).
  - intros u Hu Hux. destruct (Hvs u) as (k & r & Hk & Hn); [set_solver|done|].
    destruct (upsert_categories_row_keeps v m k r Hk) as [i Hi].
    exists k, (categories.set_icon i r). done.
Qed.

(** The target depends on the ids and names of the table only. *)
Lemma target_same_names v (m1 m2 : gmap string categories.row) :
  ids_unique key m2 → names_unique key m2 →
  (∀ k, categories.name <$> m1 !! k = categories.name <$> m2 !! k) →
  target key v m1 = target key v m2.
Proof.
  intros Hi Hu H. unfold target.
  destruct (lookup_id key v.1 m1) as [[k r1]|] eqn:H1.
  { apply lookup_id_Some in H1 as [Hk Hkv].
    pose proof (H k) as Hk2. rewrite Hk in Hk2.
    destruct (m2 !! k) as [r2|] eqn:Hr2; [|done].
    by rewrite (lookup_id_unique v.1 m2 k r2). }
  destruct (lookup_id key v.1 m2) as [[k r2]|] eqn:H2.
  { exfalso. apply lookup_id_Some in H2 as [Hk Hkv].
    pose proof (H k) as Hk1. rewrite Hk in Hk1.
    destruct (m1 !! k) as [r1|] eqn:Hr1; [|done].
    by eapply (lookup_id_None _ m1 k r1). }
  destruct (lookup_name key _ m1) as [[k r1]|] eqn:Hn1.
  - apply lookup_name_Some in Hn1 as [Hk Hn].
    pose proof (H k) as Hk2. rewrite Hk in Hk2.
    destruct (m2 !! k) as [r2|] eqn:Hr2; [|done]. simpl in Hk2.
    injection Hk2 as Hk2.
    rewrite (lookup_name_unique _ m2 k r2); [done|done|done|congruence].
  - destruct (lookup_name key _ m2) as [[k r2]|] eqn:Hn2; [|done].
    exfalso. apply lookup_name_Some in Hn2 as [Hk Hn].
    pose proof (H k) as Hk1. rewrite Hk in Hk1.
    destruct (m1 !! k) as [r1|] eqn:Hr1; [|done]. simpl in Hk1.
    injection Hk1 as Hk1.
    eapply (lookup_name_None _ m1 k r1); [done..|]. congruence.
Qed.

Lemma coherent_cons v vs : coherent key (v :: vs) → coherent key vs.
Proof. intros H u w Hu Hw. apply H; set_solver. Qed.

(** With coherent tuples, the first tuple would write the same row in
    the final table as it does in the initial one. *)
Lemma target_final v vs m :
  ids_unique key m → names_unique key m → coherent key (v :: vs) →
  target key v (upsert_categories_rows key (v :: vs) m) = target key v m.
Proof.
  intros Hi Hu Hc. rewrite upsert_categories_rows_cons.
  set (m1 := upsert_categories_row key v m).
  assert (Hu1 : names_unique key (upsert_categories_rows key vs m1))
    by (by apply upsert_categories_rows_names_unique,
                 upsert_categories_row_names_unique).
  assert (Hi1 : ids_unique key (upsert_categories_rows key vs m1))
    by (by apply upsert_categories_rows_ids_unique,
                 upsert_categories_row_ids_unique).
  destruct (m !! target key v m) as [r|] eqn:Ht.
  - destruct (upsert_categories_row_keeps v m _ _ Ht) as [i Hi'].
    destruct (upsert_categories_rows_keeps vs m1 _ _ Hi') as [j Hj].
    destruct (target_hit _ _ _ Ht) as [Heq|[Hnone Hn]].
    { by eapply target_primary. }
    eapply (target_name v _ (target key v m) _ Hu1); [|exact Hj|done].
    apply upsert_categories_rows_no_id.
    + intros k r0 Hk.
      apply upsert_categories_row_origin in Hk as [(o & Ho & _)|(-> & _ & Hf)].
      * by eapply Hnone.
      * by destruct (Hf _ _ Ht).
    + intros u Hu0 Hux. exists (target key v m), (categories.set_icon i r).
      split; [done|]. simpl. rewrite Hn. symmetry. apply Hc; set_solver.
  - apply target_miss in Ht as Hm. destruct Hm as [Heq _].
    assert (Hv : m1 !! v.1 = Some v.2).
    { unfold m1. rewrite upsert_categories_row_lookup.
      rewrite Heq in Ht. by rewrite decide_True, Ht. }
    destruct (upsert_categories_rows_keeps vs m1 _ _ Hv) as [j Hj].
    rewrite Heq. by eapply target_primary.
Qed.

(** Two tables end up equal when each id holds, in the second, the row
    it will finally hold or the row it holds in the first. *)
Lemma upsert_categories_rows_overwrite vs (m m' : gmap string categories.row) :
  ids_unique key m → names_unique key m → coherent key vs →
  (∀ k, m' !! k = upsert_categories_rows key vs m !! k
        ∨ (m' !! k = m !! k ∧ is_Some (m !! k))) →
  upsert_categories_rows key vs m' = upsert_categories_rows key vs m.
Proof.
  revert m m'. induction vs as [|v vs IH]; intros m m' Hi Hu Hc H.
  - apply map_eq. intros k. destruct (H k) as [?|[? _]]; done.
  - set (mf := upsert_categories_rows key (v :: vs) m) in *.
    assert (Huf : names_unique key mf)
      by (by apply upsert_categories_rows_names_unique).
    assert (Hif : ids_unique key mf)
      by (by apply upsert_categories_rows_ids_unique).
    assert (Hnames : ∀ k, categories.name <$> m' !! k = categories.name <$> mf !! k).
    { intros k. destruct (H k) as [->|[-> [r Hr]]]; [done|].
      destruct (upsert_categories_rows_keeps (v :: vs) m _ _ Hr) as [i Hi'].
      fold mf in Hi'. by rewrite Hr, Hi'. }
    assert (Ht : target key v m' = target key v m).
    { rewrite (target_same_names v m' mf Hif Huf Hnames). by apply target_final. }
    rewrite !upsert_categories_rows_cons. apply IH.
    + by apply upsert_categories_row_ids_unique.
    + by apply upsert_categories_row_names_unique.
    + by eapply coherent_cons.
    + intros k. rewrite !upsert_categories_row_lookup, Ht.
      destruct (decide (k = target key v m)) as [->|Hne]; [|apply H].
      right. split; [|eauto]. f_equal.
      set (x := match m !! target key v m with
                | Some old => categories.set_icon (categories.icon v.2) old
                | None => v.2 end).
      assert (Hx : upsert_categories_row key v m !! target key v m = Some x).
      { rewrite upsert_categories_row_lookup. by rewrite decide_True. }
      assert (Hix : categories.set_icon (categories.icon v.2) x = x).
      { unfold x. destruct (m !! target key v m); [done|apply set_icon_icon]. }
      destruct (H (target key v m)) as [Hf|[Hm [r Hr]]].
      * destruct (upsert_categories_rows_keeps vs _ _ _ Hx) as [j Hj].
        unfold mf in Hf. rewrite upsert_categories_rows_cons, Hj in Hf.
        rewrite Hf. by rewrite set_icon_set_icon.
      * rewrite Hm. unfold x. by rewrite Hr.
Qed.

Lemma upsert_categories_rows_idempotent vs m :
  ids_unique key m → names_unique key m → coherent key vs →
  upsert_categories_rows key vs (upsert_categories_rows key vs m)
  = upsert_categories_rows key vs m.
Proof.
  intros Hi Hu Hc. apply upsert_categories_rows_overwrite; [done..|].
  intros k. by left.
Qed.

Lemma upsert_categories_rows_origin vs m k r' :
  upsert_categories_rows key vs m !! k = Some r' →
  (∃ r, m !! k = Some r ∧ r' = categories.set_icon (categories.icon r') r)
  ∨ (∃ u, u ∈ vs ∧ u.1 = k ∧ r' = categories.set_icon (categories.icon r') u.2).
Proof.
  revert m. induction vs as [|v vs IH]; intros m.
  - intros H. left. exists r'. by rewrite set_icon_icon.
  - rewrite upsert_categories_rows_cons. intros H.
    apply IH in H as [(r1 & H1 & E)|(u & Hu & Hk & E)].
    + apply upsert_categories_row_origin in H1
        as [(r & Hr & E1)|(-> & -> & _)].
      * left. exists r. split; [done|]. rewrite E, E1. done.
      * right. exists v. split; [set_solver|]. done.
    + right. exists u. split; [set_solver|]. done.
Qed.

(** The row a tuple reaches carries the tuple's icon at the end, if no
    later tuple reaches it. The tuple reaches the row of its [id]; when
    there is none and none is made before its turn, it reaches the row of
    its [name]. *)
Lemma upsert_categories_rows_hit pre v post m k r :
  m !! k = Some r →
  (ids_unique key m ∧ key v.1 = key k)
  ∨ (names_unique key m
     ∧ key (categories.name v.2) = key (categories.name r)
     ∧ (∀ k' r', m !! k' = Some r' → key k' ≠ key v.1)
     ∧ ∀ u, u ∈ pre → key u.1 ≠ key v.1) →
  (∀ u, u ∈ post → key u.1 ≠ key k
                   ∧ key (categories.name u.2) ≠ key (categories.name r)) →
  upsert_categories_rows key (pre ++ v :: post) m !! k
  = Some (categories.set_icon (categories.icon v.2) r).
Proof.
  intros Hk Hv Hpost.
  rewrite upsert_categories_rows_app, upsert_categories_rows_cons.
  set (m1 := upsert_categories_rows key pre m).
  destruct (upsert_categories_rows_keeps pre m k r Hk) as [i Hi]. fold m1 in Hi.
  assert (Ht : target key v m1 = k).
  { destruct Hv as [[Hu Heq]|(Hu & Hn & Hnone & Hpre)].
    - eapply target_primary; [|exact Hi|done].
      by apply upsert_categories_rows_ids_unique.
    - eapply target_name; [| |exact Hi|done].
      + by apply upsert_categories_rows_names_unique.
      + apply upsert_categories_rows_no_id; [done|].
        intros u Hin Hux. by destruct (Hpre u Hin). }
  apply upsert_categories_rows_untouched.
  - rewrite upsert_categories_row_lookup, Ht, decide_True, Hi by done. done.
  - exact Hpost.
Qed.

(** The statement as one insertion into the map. *)
Lemma upsert_categories_row_insert v m :
  upsert_categories_row key v m
  = <[target key v m := match m !! target key v m with
                        | Some old => categories.set_icon (categories.icon v.2) old
                        | None => v.2
                        end]> m.
Proof.
  apply map_eq. intros k. rewrite upsert_categories_row_lookup, lookup_insert.
  destruct (decide (k = target key v m)) as [->|Hne].
  - by rewrite decide_True.
  - by rewrite decide_False.
Qed.

Lemma upsert_categories_row_size v m :
  size (upsert_categories_row key v m)
  = match m !! target key v m with Some _ => size m | None => S (size m) end.
Proof.
  rewrite upsert_categories_row_insert, map_size_insert.
  by destruct (m !! target key v m).
Qed.

Lemma upsert_categories_rows_size vs m :
  (size (upsert_categories_rows key vs m) ≤ size m + length vs)%nat.
Proof.
  revert m. induction vs as [|v vs IH]; intros m; [simpl; lia|].
  rewrite upsert_categories_rows_cons.
  specialize (IH (upsert_categories_row key v m)).
  rewrite upsert_categories_row_size in IH.
  destruct (m !! target key v m); simpl; lia.
Qed.

(** A tuple whose [id] is stored adds no row. *)
Lemma upsert_categories_rows_size_hit pre v post m k r :
  ids_unique key m → m !! k = Some r → key v.1 = key k →
  (size (upsert_categories_rows key (pre ++ v :: post) m)
   ≤ size m + length pre + length post)%nat.
Proof.
  intros Hu Hr Heq.
  rewrite upsert_categories_rows_app, upsert_categories_rows_cons.
  destruct (upsert_categories_rows_keeps pre m _ _ Hr) as [i Hi].
  pose proof (upsert_categories_rows_size post
                (upsert_categories_row key v (upsert_categories_rows key pre m)))
    as H.
  rewrite upsert_categories_row_size in H.
  rewrite (target_primary v (upsert_categories_rows key pre m) k
             (categories.set_icon i r)), Hi in H;
    [|by apply upsert_categories_rows_ids_unique|done|done].
  pose proof (upsert_categories_rows_size pre m). lia.
Qed.

(** On an empty table every row stems from a tuple with its id and its
    name. *)
Lemma upsert_categories_rows_empty_origin vs k r :
  upsert_categories_rows key vs ∅ !! k = Some r →
  ∃ u, u ∈ vs ∧ u.1 = k ∧ categories.name r = categories.name u.2.
Proof.
  intros H. apply upsert_categories_rows_origin in H
    as [(r0 & H0 & _)|(u & Hu & Hk & E)].
  - by rewrite lookup_empty in H0.
  - exists u. split; [done|]. split; [done|]. by rewrite E.
Qed.

(** On an empty table, with coherent tuples: the first tuple of a name
    gives the row its id, type and creation time ... *)
Lemma upsert_categories_rows_first l1 v1 l2 :
  coherent key (l1 ++ v1 :: l2) →
  (∀ u, u ∈ l1 → key (categories.name u.2) ≠ key (categories.name v1.2)) →
  ∃ i, upsert_categories_rows key (l1 ++ v1 :: l2) ∅ !! v1.1
       = Some (categories.set_icon i v1.2).
Proof.
  intros Hc Hl1.
  rewrite upsert_categories_rows_app, upsert_categories_rows_cons.
  set (m1 := upsert_categories_rows key l1 ∅).
  assert (Hnone : ∀ k r, m1 !! k = Some r →
            key k ≠ key v1.1
            ∧ key (categories.name r) ≠ key (categories.name v1.2)).
  { intros k r H.
    destruct (upsert_categories_rows_empty_origin _ _ _ H) as (u & Hu & Hk & Hn).
    split.
    - intros E. apply (Hl1 u Hu). apply Hc; [set_solver|set_solver|congruence].
    - rewrite Hn. by apply Hl1. }
  assert (Ht : m1 !! target key v1 m1 = None).
  { destruct (m1 !! target key v1 m1) as [r|] eqn:H; [|done]. exfalso.
    destruct (Hnone _ _ H) as [Hid Hn].
    destruct (target_hit _ _ _ H) as [Heq|[_ Heq]]; done. }
  apply target_miss in Ht as Hm. destruct Hm as [Heq _].
  apply upsert_categories_rows_keeps.
  rewrite upsert_categories_row_lookup, decide_True by done.
  rewrite Heq in Ht. by rewrite Ht.
Qed.

(** ... and the last tuple of a name gives it its icon. *)
Lemma upsert_categories_rows_last l3 v2 l4 k r :
  coherent key (l3 ++ v2 :: l4) →
  (∀ u, u ∈ l4 → key (categories.name u.2) ≠ key (categories.name v2.2)) →
  upsert_categories_rows key (l3 ++ v2 :: l4) ∅ !! k = Some r →
  key (categories.name r) = key (categories.name v2.2) →
  categories.icon r = categories.icon v2.2.
Proof.
  intros Hc Hl4 Hk Hn.
  assert (Hu : names_unique key (upsert_categories_rows key (l3 ++ v2 :: l4) ∅))
    by apply upsert_categories_rows_names_unique, names_unique_empty.
  replace (l3 ++ v2 :: l4) with ((l3 ++ [v2]) ++ l4) in Hk, Hu
    by (by rewrite <- app_assoc).
  rewrite upsert_categories_rows_app in Hk, Hu.
  set (m3 := upsert_categories_rows key l3 ∅).
  set (m3' := upsert_categories_rows key (l3 ++ [v2]) ∅) in *.
  assert (Hm3' : m3' = upsert_categories_row key v2 m3).
  { unfold m3', m3. by rewrite upsert_categories_rows_app. }
  set (t := target key v2 m3).
  destruct (m3' !! t) as [x|] eqn:Hx.
  2:{ rewrite Hm3', upsert_categories_row_lookup in Hx.
      by rewrite decide_True in Hx. }
  assert (Hxi : categories.icon x = categories.icon v2.2
                ∧ key (categories.name x) = key (categories.name v2.2)).
  { rewrite Hm3', upsert_categories_row_lookup in Hx.
    rewrite decide_True in Hx by done. injection Hx as <-.
    destruct (m3 !! t) as [old|] eqn:Hold; [|done].
    split; [done|]. simpl.
    destruct (target_hit _ _ _ Hold) as [Heq|[_ Hname]]; [|done].
    destruct (upsert_categories_rows_empty_origin _ _ _ Hold)
      as (u & Hin & Hku & ->).
    apply Hc; [set_solver|set_solver|]. rewrite Hku. exact Heq. }
  destruct Hxi as [Hxi Hxn].
  destruct (upsert_categories_rows_empty_origin _ _ _ Hx)
    as (u' & Hu' & Hu'k & Hu'n).
  assert (Hfinal : upsert_categories_rows key l4 m3' !! t = Some x).
  { apply upsert_categories_rows_untouched; [done|].
    intros u Hin. split.
    - intros Heq. apply (Hl4 u Hin). rewrite <- Hxn, Hu'n.
      apply Hc; [set_solver| |congruence].
      apply elem_of_app in Hu' as [?|?]; set_solver.
    - rewrite Hxn. by apply Hl4. }
  assert (k = t) as -> by (eapply Hu; [done..|congruence]).
  congruence.
Qed.
End Categories.
(** ** Records that fit *)

Lemma varchar_holds n column s : holds n s = true → varchar n column s = inr s.
Proof. unfold holds, varchar. by intros ->. Qed.

Lemma varchar_null_holds n column s :
  holds_null n s = true → varchar_null n column s = inr s.
Proof.
  destruct s as [v|]; simpl; [|done]. intros H.
  by rewrite (varchar_holds _ _ _ H).
Qed.

Lemma text_holds column s : holds_text s = true → text column s = inr s.
Proof. destruct s as [v|]; simpl; [|done]. by intros ->. Qed.

Lemma int_holds column n : holds_int n = true → int column n = inr n.
Proof. unfold holds_int, int. by intros ->. Qed.

Lemma round_half_away_multiple (c : Z) (d : positive) :
  round_half_away ((c * Z.pos d) # d) = c.
Proof.
  unfold round_half_away. simpl.
  assert (Hd : 0 < Z.pos d) by lia.
  rewrite Z.abs_mul, (Z.abs_eq (Z.pos d)) by lia.
  replace (2 * (Z.abs c * Z.pos d) + Z.pos d)
    with (Z.abs c * (2 * Z.pos d) + Z.pos d) by lia.
  rewrite Z.div_add_l by lia.
  rewrite (Z.div_small (Z.pos d)) by lia.
  rewrite Z.sgn_mul, (Z.sgn_pos (Z.pos d)) by lia.
  rewrite Z.add_0_r, Z.mul_1_r. lia.
Qed.

Lemma cents_Finite x c : cents x = Some c → ∃ q, x = Finite q.
Proof. destruct x; [eauto|done..]. Qed.

Lemma cents_decimal column q c :
  cents (Finite q) = Some c → decimal_10_2 column (Some q) = inr c.
Proof.
  simpl.
  destruct (_ =? 0) eqn:Hmod; simpl; [|done].
  destruct (_ <=? _) eqn:Hrange; [|done]. intros [= <-].
  apply Z.eqb_eq in Hmod. apply Z.mod_divide in Hmod; [|lia].
  destruct Hmod as [c Hc].
  assert (Hq : Qmult q (inject_Z 100) = Qmake (c * Z.pos (Qden q)) (Qden q)).
  { unfold Qmult, inject_Z. simpl. rewrite Hc. f_equal. lia. }
  revert Hrange. rewrite Hq, Hc, Z.div_mul by lia.
  rewrite round_half_away_multiple. by intros ->.
Qed.

(** [cents] reads the number exactly. *)
Lemma cents_exact q c : cents (Finite q) = Some c → Qeq q (Qmake c 100).
Proof.
  simpl. destruct (_ =? 0) eqn:Hmod; simpl; [|done].
  destruct (_ <=? _); [|done]. intros [= <-].
  apply Z.eqb_eq in Hmod. apply Z.mod_divide in Hmod; [|lia].
  destruct Hmod as [c Hc]. unfold Qeq. simpl.
  rewrite Hc, Z.div_mul by lia. lia.
Qed.

Lemma transaction_row_values t v :
  transaction_row t = Some v → transactions_values t = inr v.
Proof.
  unfold transaction_row, transactions_values.
  destruct (_ && _) eqn:H; [|done].
  repeat (apply andb_prop in H as [H ?]).
  destruct (cents _) as [c|] eqn:Hc; [|done]. intros [= <-].
  destruct (cents_Finite _ _ Hc) as [q Hq]. rewrite Hq in Hc |- *.
  cbn [float_literal fit_bind].
  by rewrite !varchar_holds, text_holds, int_holds, (cents_decimal _ _ _ Hc).
Qed.

Lemma budget_row_values b v :
  budget_row b = Some v → budgets_values b = inr v.
Proof.
  unfold budget_row, budgets_values.
  destruct (_ && _) eqn:H; [|done].
  repeat (apply andb_prop in H as [H ?]).
  destruct (cents _) as [c|] eqn:Hc; [|done]. intros [= <-].
  destruct (cents_Finite _ _ Hc) as [q Hq]. rewrite Hq in Hc |- *.
  cbn [float_literal fit_bind].
  by rewrite !varchar_holds, (cents_decimal _ _ _ Hc).
Qed.

Lemma category_row_values c v :
  category_row c = Some v → categories_values c = inr v.
Proof.
  unfold category_row, categories_values.
  destruct (_ && _) eqn:H; [|done].
  repeat (apply andb_prop in H as [H ?]). intros [= <-].
  by rewrite !varchar_holds, varchar_null_holds by done.
Qed.

Lemma transaction_row_id t v : transaction_row t = Some v → v.1 = Transaction.id t.
Proof.
  unfold transaction_row. destruct (_ && _); [|done].
  destruct (cents _); [|done]. by intros [= <-].
Qed.

Lemma budget_row_id b v : budget_row b = Some v → v.1 = Budget.id b.
Proof.
  unfold budget_row. destruct (_ && _); [|done].
  destruct (cents _); [|done]. by intros [= <-].
Qed.

Lemma budget_row_category b v :
  budget_row b = Some v → budgets.category v.2 = Budget.category b.
Proof.
  unfold budget_row. destruct (_ && _); [|done].
  destruct (cents _); [|done]. by intros [= <-].
Qed.

Lemma category_row_eq c v : category_row c = Some v → v = category_tuple c.
Proof. unfold category_row. destruct (_ && _); [|done]. by intros [= <-]. Qed.

(** A list of records that all fit gives the list of their rows. *)
Lemma values_each_rows {A V : Type} (f : A → fitted V) (g : A → option V)
    (l : list A) :
  (∀ x v, g x = Some v → f x = inr v) →
  Forall (λ x, is_Some (g x)) l →
  ∃ vs, values_each f l = inr vs ∧ Forall2 (λ x v, g x = Some v) l vs.
Proof.
  intros Hfg. induction 1 as [|x l [v Hv] _ (vs & IH & IH2)]; simpl.
  - by exists [].
  - exists (v :: vs). rewrite (Hfg _ _ Hv), IH. simpl. split; [done|].
    by constructor.
Qed.

Lemma Forall2_rows_elem {A V : Type} (g : A → option V) (l : list A)
    (vs : list V) (v : V) :
  Forall2 (λ x v, g x = Some v) l vs →
  v ∈ vs ↔ ∃ x, x ∈ l ∧ g x = Some v.
Proof.
  induction 1 as [|x w l vs Hx _ IH].
  - split; [by intros ?%elem_of_nil|]. by intros (? & ?%elem_of_nil & _).
  - rewrite elem_of_cons, IH. split.
    + intros [->|(y & Hy & Hg)]; [exists x|exists y]; set_solver.
    + intros (y & [->|Hy]%elem_of_cons & Hg); [left; congruence|right; eauto].
Qed.

Lemma Forall2_rows_fmap {A V B : Type} (g : A → option V) (p : A → B)
    (p' : V → B) (l : list A) (vs : list V) :
  (∀ x v, g x = Some v → p' v = p x) →
  Forall2 (λ x v, g x = Some v) l vs → p' <$> vs = p <$> l.
Proof.
  intros Hp. induction 1 as [|x w l vs Hx _ IH]; [done|].
  rewrite !fmap_cons, IH. f_equal. by apply Hp.
Qed.

(** * Facts about whole calls *)

Lemma accepted_values (data : BackupData.t) :
  accepted data = true →
  ∃ tvs bvs cvs,
    values_each transactions_values (BackupData.transactions data) = inr tvs ∧
    values_each budgets_values (BackupData.budgets data) = inr bvs ∧
    values_each categories_values (BackupData.categories data) = inr cvs.
Proof.
  unfold accepted, snapshot_values.
  destruct (values_each _ (BackupData.transactions data)) as [|tvs]; [done|].
  destruct (values_each _ (BackupData.budgets data)) as [|bvs]; [done|].
  destruct (values_each _ (BackupData.categories data)) as [|cvs]; [done|].
  intros _. by exists tvs, bvs, cvs.
Qed.

(** A call in a healthy environment whose records fit succeeds and
    leaves the three folded tables. *)
Lemma Backup_healthy (env : Env) (db : Database) (data : BackupData.t) tvs bvs cvs :
  healthy env →
  values_each transactions_values (BackupData.transactions data) = inr tvs →
  values_each budgets_values (BackupData.budgets data) = inr bvs →
  values_each categories_values (BackupData.categories data) = inr cvs →
  Backup env db data
  = (Return (backup_response data),
     mkDatabase (collation db)
       (replace_transactions_rows (collation db) tvs (tbl_transactions db))
       (replace_budgets_rows (collation db) bvs (tbl_budgets db))
       (upsert_categories_rows (collation db) cvs (tbl_categories db))).
Proof.
  intros Hh Ht Hb Hc. apply Backup_run; [apply Hh|by apply healthy_link_holds|].
  apply apply_backup_inr. by exists tvs, bvs, cvs.
Qed.

(** The tables after a call: as they were, or the three loops applied. *)
Lemma Backup_storage (env : Env) (db : Database) (data : BackupData.t) :
  (Backup env db data).2 = db ∨
  ∃ tvs bvs cvs,
    values_each transactions_values (BackupData.transactions data) = inr tvs ∧
    values_each budgets_values (BackupData.budgets data) = inr bvs ∧
    values_each categories_values (BackupData.categories data) = inr cvs ∧
    (Backup env db data).2
    = mkDatabase (collation db)
        (replace_transactions_rows (collation db) tvs (tbl_transactions db))
        (replace_budgets_rows (collation db) bvs (tbl_budgets db))
        (upsert_categories_rows (collation db) cvs (tbl_categories db)).
Proof.
  destruct (Backup env db data) as [r db'] eqn:H. simpl.
  apply Backup_inv in H as [(_ & _ & _ & Ha)|(e & _ & ->)]; [|by left].
  right. apply apply_backup_inr in Ha as (tvs & bvs & cvs & ? & ? & ? & ->).
  by exists tvs, bvs, cvs.
Qed.

Lemma Backup_collation (env : Env) (db : Database) (data : BackupData.t) :
  collation (Backup env db data).2 = collation db.
Proof.
  destruct (Backup_storage env db data)
    as [->|(tvs & bvs & cvs & _ & _ & _ & ->)]; done.
Qed.

(** Every call keeps the keys of the three tables unique. *)
Lemma Backup_keys_unique (env : Env) (db : Database) (data : BackupData.t) :
  keys_unique db → keys_unique (Backup env db data).2.
Proof.
  intros (Ht & Hb & Hbc & Hc & Hcn).
  destruct (Backup_storage env db data)
    as [->|(tvs & bvs & cvs & _ & _ & _ & ->)]; [done|].
  unfold keys_unique. simpl.
  assert (Hb' : collision_free (same_budget (collation db))
                  (replace_budgets_rows (collation db) bvs (tbl_budgets db))).
  { apply replace_rows_collision_free; [apply _|].
    by apply keys_unique_budgets. }
  apply keys_unique_budgets in Hb' as [? ?].
  split; [|split; [done|split; [done|split]]].
  - apply ids_unique_transactions, replace_rows_collision_free; [apply _|done].
  - by apply upsert_categories_rows_ids_unique.
  - by apply upsert_categories_rows_names_unique.
Qed.

Lemma keys_unique_empty key : keys_unique (empty_database key).
Proof.
  unfold keys_unique. simpl.
  repeat split; intros k1 k2 r1 r2 H; by rewrite lookup_empty in H.
Qed.

(** The tuples of a list split as the list does. *)
Lemma values_each_split {A V : Type} (f : A → fitted V) (pre post : list A)
    (x : A) (vs : list V) :
  values_each f (pre ++ x :: post) = inr vs →
  ∃ vpre v vpost,
    vs = vpre ++ v :: vpost ∧ f x = inr v ∧
    values_each f pre = inr vpre ∧ values_each f post = inr vpost.
Proof.
  intros H. apply values_each_app in H as (vpre & vs2 & Hpre & H2 & ->).
  simpl in H2. destruct (f x) as [|v]; [done|]. simpl in H2.
  destruct (values_each f post) as [|vpost]; [done|]. injection H2 as <-.
  by exists vpre, v, vpost.
Qed.

Lemma coherent_categories_values key (l : list Category.t) vs :
  values_each categories_values l = inr vs →
  coherent_categories key l → coherent key vs.
Proof.
  intros Hvs Hc u v Hu Hv Heq.
  apply values_each_elem in Hvs as (_ & H & _).
  destruct (H u Hu) as (c & Hc1 & Hcu). destruct (H v Hv) as (c' & Hc2 & Hcv).
  by apply (Hc c c' u v).
Qed.

(** The tuples of a list of records satisfy what the records' tuples
    satisfy. *)
Lemma values_elem_of {A V : Type} (f : A → fitted V) (l : list A) (vs : list V)
    (P : V → Prop) :
  values_each f l = inr vs →
  (∀ x v, x ∈ l → f x = inr v → P v) →
  ∀ v, v ∈ vs → P v.
Proof.
  intros Hvs HP v Hv. apply values_each_elem in Hvs as (_ & Hback & _).
  destruct (Hback v Hv) as (x & Hx & Hfx). by apply (HP x).
Qed.

(** What a call does with a budget that no later budget of the call
    replaces. *)
Lemma Backup_stores_budget (env : Env) (db : Database)
    (data : BackupData.t) (pre post : list Budget.t) (b : Budget.t)
    (v : string * budgets.row) :
  healthy env →
  accepted data = true →
  BackupData.budgets data = pre ++ b :: post →
  budgets_values b = inr v →
  (∀ b' v', b' ∈ post → budgets_values b' = inr v' →
     collation db v'.1 ≠ collation db v.1
     ∧ collation db (budgets.category v'.2)
       ≠ collation db (budgets.category v.2)) →
  ∃ db', Backup env db data = (Return (backup_response data), db') ∧
    collation db' = collation db ∧
    tbl_budgets db' !! v.1 = Some v.2 ∧
    (∀ k r, tbl_budgets db' !! k = Some r →
       collation db k = collation db v.1
       ∨ collation db (budgets.category r)
         = collation db (budgets.category v.2) →
       k = v.1).
Proof.
  intros Hh Hacc Hsplit Hv Hpost.
  destruct (accepted_values data Hacc) as (tvs & bvs & cvs & Ht & Hb & Hc).
  rewrite (Backup_healthy env db data tvs bvs cvs) by done.
  eexists. split; [done|]. simpl. split; [done|].
  rewrite Hsplit in Hb.
  apply values_each_split in Hb as (vpre & v0 & vpost & -> & Hv0 & _ & Hvpost).
  assert (v0 = v) as -> by congruence.
  apply (replace_rows_last (same_budget (collation db))).
  intros u Hu. apply values_each_elem in Hvpost as (_ & H & _).
  destruct (H u Hu) as (b' & Hb' & Hvb').
  destruct (Hpost b' u Hb' Hvb') as [Hid Hcat].
  split; [congruence|]. unfold same_budget. tauto.
Qed.

(** What a call does with a category that reaches a stored row. *)
Lemma Backup_upserts_category (env : Env) (db : Database) (data : BackupData.t)
    (pre post : list Category.t) (c : Category.t)
    (v : string * categories.row) (k : string) (r : categories.row) :
  healthy env →
  accepted data = true →
  BackupData.categories data = pre ++ c :: post →
  categories_values c = inr v →
  tbl_categories db !! k = Some r →
  (ids_unique (collation db) (tbl_categories db)
   ∧ collation db v.1 = collation db k)
  ∨ (names_unique (collation db) (tbl_categories db)
     ∧ collation db (categories.name v.2) = collation db (categories.name r)
     ∧ (∀ k' r', tbl_categories db !! k' = Some r' →
          collation db k' ≠ collation db v.1)
     ∧ ∀ c' v', c' ∈ pre → categories_values c' = inr v' →
         collation db v'.1 ≠ collation db v.1) →
  (∀ c' v', c' ∈ post → categories_values c' = inr v' →
     collation db v'.1 ≠ collation db k
     ∧ collation db (categories.name v'.2)
       ≠ collation db (categories.name r)) →
  ∃ db', Backup env db data = (Return (backup_response data), db') ∧
    tbl_categories db' !! k
    = Some (categories.set_icon (categories.icon v.2) r) ∧
    (ids_unique (collation db) (tbl_categories db) →
     collation db v.1 = collation db k →
     (size (tbl_categories db')
      ≤ size (tbl_categories db) + length pre + length post)%nat).
Proof.
  intros Hh Hacc Hsplit Hv Hk Hreach Hpost.
  destruct (accepted_values data Hacc) as (tvs & bvs & cvs & Ht & Hb & Hc).
  rewrite (Backup_healthy env db data tvs bvs cvs) by done.
  eexists. split; [done|]. simpl.
  rewrite Hsplit in Hc.
  apply values_each_split in Hc as (vpre & v0 & vpost & -> & Hv0 & Hvpre & Hvpost).
  assert (v0 = v) as -> by congruence.
  pose proof (values_each_elem _ _ _ Hvpre) as (_ & Hpre_elem & Hpre_len).
  pose proof (values_each_elem _ _ _ Hvpost) as (_ & Hpost_elem & Hpost_len).
  split.
  - apply upsert_categories_rows_hit; [done| |].
    + destruct Hreach as [?|(Hu & Hn & Hnone & Hpre)]; [by left|right].
      repeat split; try done. intros u Hu'.
      destruct (Hpre_elem u Hu') as (c' & Hc' & Hvc'). by apply (Hpre c').
    + intros u Hu. destruct (Hpost_elem u Hu) as (c' & Hc' & Hvc').
      by apply (Hpost c').
  - intros Hi Heq. rewrite <- Hpre_len, <- Hpost_len.
    by eapply upsert_categories_rows_size_hit.
Qed.

(** What [Restore] returns in a healthy environment. *)
Lemma Restore_healthy (env : Env) (db : Database) :
  healthy env → Restore env db = (Return (restore_response db), db).
Proof.
  intros Hh. apply Restore_run; [apply Hh|by apply healthy_link_holds].
Qed.

Lemma elem_of_select_transactions (db : Database) v :
  v ∈ select_transactions_order_by_date_desc db
  ↔ tbl_transactions db !! v.1 = Some v.2.
Proof.
  unfold select_transactions_order_by_date_desc.
  rewrite merge_sort_Permutation. destruct v. apply elem_of_map_to_list.
Qed.

(** Twice the same loops on the tables give what once gives. *)
Lemma apply_backup_idempotent (data : BackupData.t) (db db1 : Database) :
  ids_unique (collation db) (tbl_categories db) →
  names_unique (collation db) (tbl_categories db) →
  coherent_categories (collation db) (BackupData.categories data) →
  apply_backup data db = inr db1 → apply_backup data db1 = inr db1.
Proof.
  intros Hi Hu Hc H.
  apply apply_backup_inr in H as (tvs & bvs & cvs & Ht & Hb & Hcv & ->).
  apply apply_backup_inr. exists tvs, bvs, cvs. repeat split; try done.
  simpl. unfold replace_transactions_rows, replace_budgets_rows.
  rewrite !replace_rows_idempotent, upsert_categories_rows_idempotent;
    [done|done|done|].
  by eapply coherent_categories_values.
Qed.

(** * The claims *)

(** C1, the claim as stated fails: after a first Backup that inserts the
    budget ["b1"] for "Food" under a fresh id, a second Backup with the
    budget ["b2"] for "Food", a new id, does not fail and does not leave
    storage as it was. *)
Lemma second_budget_is_not_rejected :
  tbl_budgets no_rows !! "b1" = None ∧
  tbl_budgets db_first_budget !! "b1"
  = Some (budgets.mk "Food" 10000 "2024-01-01T00:00:00" "2024-01-01T00:00:00") ∧
  tbl_budgets db_first_budget !! "b2" = None ∧
  ¬ ((∃ e, (Backup env_ok db_first_budget second_budget).1 = Raise e) ∧
     (Backup env_ok db_first_budget second_budget).2 = db_first_budget).
Proof.
  split; [reflexivity|]. split; [vm_compute; reflexivity|].
  split; [vm_compute; reflexivity|].
  intros [[e He] _]. vm_compute in He. discriminate.
Qed.

(** C1, amended. Of two successive Backup calls, let the first store a
    budget and the second contain a budget with another id and the same
    category, neither followed in its own call by a budget with its id or
    category. Given a healthy environment and records that fit their
    columns, the second call succeeds as the first did: [REPLACE INTO]
    deletes the row of the first call and stores the second budget, so
    that storage is not left as it was after the first call. Ids and
    categories are the same when the collation of the tables gives them
    the same weight ([key]). *)
Theorem second_budget_of_same_category_succeeds (env : Env) (db : Database)
    (data1 data2 : BackupData.t) (pre1 post1 pre2 post2 : list Budget.t)
    (b1 b2 : Budget.t) (v1 v2 : string * budgets.row) :
  let key := collation db in
  healthy env →
  accepted data1 = true →
  accepted data2 = true →
  BackupData.budgets data1 = pre1 ++ b1 :: post1 →
  BackupData.budgets data2 = pre2 ++ b2 :: post2 →
  budgets_values b1 = inr v1 →
  budgets_values b2 = inr v2 →
  v1.1 ≠ v2.1 →
  key (budgets.category v1.2) = key (budgets.category v2.2) →
  (∀ b' v', b' ∈ post1 → budgets_values b' = inr v' →
     key v'.1 ≠ key v1.1
     ∧ key (budgets.category v'.2) ≠ key (budgets.category v1.2)) →
  (∀ b' v', b' ∈ post2 → budgets_values b' = inr v' →
     key v'.1 ≠ key v2.1
     ∧ key (budgets.category v'.2) ≠ key (budgets.category v2.2)) →
  ∃ db1 db2,
    Backup env db data1 = (Return (backup_response data1), db1) ∧
    tbl_budgets db1 !! v1.1 = Some v1.2 ∧
    Backup env db1 data2 = (Return (backup_response data2), db2) ∧
    tbl_budgets db2 !! v2.1 = Some v2.2 ∧
    tbl_budgets db2 !! v1.1 ≠ Some v1.2 ∧
    db2 ≠ db1.
Proof.
  intros key Hh Hacc1 Hacc2 Hsplit1 Hsplit2 Hv1 Hv2 Hne Hcat Hpost1 Hpost2.
  destruct (Backup_stores_budget env db data1 pre1 post1 b1 v1)
    as (db1 & HB1 & Hkey1 & Hrow1 & _); try done.
  destruct (Backup_stores_budget env db1 data2 pre2 post2 b2 v2)
    as (db2 & HB2 & _ & Hrow2 & Honly2); try done.
  { by rewrite Hkey1. }
  assert (Hgone : tbl_budgets db2 !! v1.1 ≠ Some v1.2).
  { intros H. apply Hne. apply (Honly2 v1.1 v1.2 H). right.
    by rewrite Hkey1. }
  exists db1, db2. repeat split; try done.
  intros ->. by apply Hgone.
Qed.

Lemma second_budget_of_same_category_succeeds_witness :
  ∃ db1 db2,
    Backup env_ok no_rows first_budget
    = (Return (backup_response first_budget), db1) ∧
    tbl_budgets db1 !! "b1"
    = Some (budgets.mk "Food" 10000 "2024-01-01T00:00:00" "2024-01-01T00:00:00") ∧
    Backup env_ok db1 third_budget
    = (Return (backup_response third_budget), db2) ∧
    tbl_budgets db2 !! "b3"
    = Some (budgets.mk "food" 7500 "2024-03-01T00:00:00" "2024-03-01T00:00:00") ∧
    tbl_budgets db2 !! "b1"
    ≠ Some (budgets.mk "Food" 10000 "2024-01-01T00:00:00" "2024-01-01T00:00:00") ∧
    db2 ≠ db1.
Proof.
  apply (second_budget_of_same_category_succeeds env_ok no_rows
           first_budget third_budget [] [] [] [] b_food_1 b_food_lower
           ("b1", budgets.mk "Food" 10000 "2024-01-01T00:00:00" "2024-01-01T00:00:00")
           ("b3", budgets.mk "food" 7500 "2024-03-01T00:00:00" "2024-03-01T00:00:00")).
  - split; [vm_compute; reflexivity|done].
  - vm_compute; reflexivity.
  - vm_compute; reflexivity.
  - reflexivity.
  - reflexivity.
  - vm_compute; reflexivity.
  - vm_compute; reflexivity.
  - discriminate.
  - vm_compute; reflexivity.
  - intros b' v' Hb'. by apply elem_of_nil in Hb'.
  - intros b' v' Hb'. by apply elem_of_nil in Hb'.
Defined.

(** C2. A Backup call that fails persists nothing: whenever the call
    raises, the stored state is the one before the call; and the call does
    raise whenever a statement of it violates a column constraint or the
    link breaks before the commit is through. Statements that ran before
    the failing one, in earlier loops too, are undone with the rest. *)
Theorem backup_failure_persists_nothing (env : Env) (db : Database)
    (data : BackupData.t) :
  (∀ e db', Backup env db data = (Raise e, db') → db' = db) ∧
  ((∃ err, apply_backup data db = inl err)
   ∨ (∃ i, (i ≤ S (statements data))%nat ∧ link_up env i = false) →
   ∃ e, Backup env db data = (Raise e, db)).
Proof.
  split.
  - intros e db' H. apply Backup_inv in H as [(H & _)|(e' & _ & ->)]; done.
  - intros Hfail.
    destruct (Backup env db data) as [r db'] eqn:H.
    apply Backup_inv in H as [(-> & _ & Hl & Ha)|(e & -> & ->)]; [|eauto].
    exfalso. destruct Hfail as [[err Herr]|(i & Hi & Hdown)].
    + congruence.
    + rewrite Hl in Hdown by lia. done.
Qed.

Lemma backup_failure_persists_nothing_witness :
  apply_backup good_then_bad db_two_dates = inl (DataTooLong "id") ∧
  Backup env_ok db_two_dates good_then_bad
  = (Raise (HTTPException 500
       "Backup failed: 1406 (22001): Data too long for column 'id' at row 1"),
     db_two_dates).
Proof.
  assert (H : apply_backup good_then_bad db_two_dates = inl (DataTooLong "id"))
    by (vm_compute; reflexivity).
  split; [exact H|].
  destruct (proj2 (backup_failure_persists_nothing env_ok db_two_dates good_then_bad)
              (or_introl (ex_intro _ _ H))) as [e He].
  rewrite He. f_equal. f_equal.
  assert (Hc : (Backup env_ok db_two_dates good_then_bad).1
               = Raise (HTTPException 500
       "Backup failed: 1406 (22001): Data too long for column 'id' at row 1"))
    by (vm_compute; reflexivity).
  rewrite He in Hc. simpl in Hc. congruence.
Defined.

(** C3, the claim as stated fails: with the rows ["c1"], named "Food",
    and ["c2"], named "Drink", in storage, a Backup of the category
    [{id: "c2", name: "Food", icon: "🍕"}] succeeds and leaves the icon of
    the row named "Food" as it was; the statement finds a duplicate on its
    primary key first and sets the icon of the row ["c2"]. *)
Lemma category_of_stored_name_and_other_id :
  tbl_categories db_food_and_drink !! "c1" = Some row_food ∧
  tbl_categories db_food_and_drink !! "c2" = Some row_drink ∧
  categories.name row_food = Category.name c_food_2 ∧
  (Backup env_ok db_food_and_drink only_food_2).1
  = Return (backup_response only_food_2) ∧
  tbl_categories (Backup env_ok db_food_and_drink only_food_2).2 !! "c1"
  ≠ Some (categories.set_icon (Category.icon c_food_2) row_food) ∧
  tbl_categories (Backup env_ok db_food_and_drink only_food_2).2 !! "c2"
  = Some (categories.set_icon (Category.icon c_food_2) row_drink).
Proof.
  split; [vm_compute; reflexivity|]. split; [vm_compute; reflexivity|].
  split; [reflexivity|]. split; [vm_compute; reflexivity|].
  split; [|vm_compute; reflexivity].
  intros H. vm_compute in H. discriminate.
Qed.

(** C3, amended. Let a Backup contain a category whose name is the name
    of a stored row, and whose id is the id of that row, or else the id of
    no stored row and of no earlier category of the call. Given a healthy
    environment, records that fit their columns, a table whose ids and
    names are unique, as its keys keep them, and no later category of the
    call with the row's id or name, the call succeeds and the row keeps its
    id, name, type and creation time and has the submitted icon. Ids and
    names are the same when the collation of the tables gives them the
    same weight ([key]); [v] is the tuple of the category. *)
Theorem category_of_stored_name_sets_icon (env : Env) (db : Database)
    (data : BackupData.t) (pre post : list Category.t) (c : Category.t)
    (v : string * categories.row) (k : string) (r : categories.row) :
  let key := collation db in
  healthy env →
  accepted data = true →
  ids_unique key (tbl_categories db) →
  names_unique key (tbl_categories db) →
  BackupData.categories data = pre ++ c :: post →
  categories_values c = inr v →
  tbl_categories db !! k = Some r →
  key (categories.name v.2) = key (categories.name r) →
  (key v.1 = key k
   ∨ ((∀ k' r', tbl_categories db !! k' = Some r' → key k' ≠ key v.1)
      ∧ ∀ c' v', c' ∈ pre → categories_values c' = inr v' →
          key v'.1 ≠ key v.1)) →
  (∀ c' v', c' ∈ post → categories_values c' = inr v' →
     key v'.1 ≠ key k
     ∧ key (categories.name v'.2) ≠ key (categories.name r)) →
  ∃ db', Backup env db data = (Return (backup_response data), db') ∧
    tbl_categories db' !! k
    = Some (categories.mk (categories.name r) (categories.type r)
              (categories.icon v.2) (categories.created_at r)).
Proof.
  intros key Hh Hacc Hi Hu Hsplit Hv Hk Hn Hid Hpost.
  destruct (Backup_upserts_category env db data pre post c v k r)
    as (db' & HB & Hrow & _); try done.
  - destruct Hid as [?|[? ?]]; [by left|by right].
  - by exists db'.
Qed.

Lemma category_of_stored_name_sets_icon_witness :
  tbl_categories db_food = {[ "c1" := row_food ]} ∧
  (∃ db', Backup env_ok db_food only_food_2
          = (Return (backup_response only_food_2), db') ∧
     tbl_categories db' !! "c1"
     = Some (categories.mk "Food" "expense" (Some "🍕") "2024-01-01T00:00:00") ∧
     tbl_categories db'
     = {[ "c1" := categories.mk "Food" "expense" (Some "🍕") "2024-01-01T00:00:00" ]}) ∧
  ∃ db', Backup env_ok db_food only_food_upper
         = (Return (backup_response only_food_upper), db') ∧
    tbl_categories db' !! "c1"
    = Some (categories.mk "Food" "expense" (Some "🥗") "2024-01-01T00:00:00").
Proof.
  assert (Hk : keys_unique db_food)
    by apply (Backup_keys_unique env_ok no_rows only_food), keys_unique_empty.
  destruct Hk as (_ & _ & _ & Hi & Hu).
  split; [vm_compute; reflexivity|]. split.
  - destruct (category_of_stored_name_sets_icon env_ok db_food only_food_2 [] []
                c_food_2
                ("c2", categories.mk "Food" "income" (Some "🍕") "2024-02-01T00:00:00")
                "c1" row_food) as (db' & HB & Hrow).
    + split; [vm_compute; reflexivity|done].
    + vm_compute; reflexivity.
    + exact Hi.
    + exact Hu.
    + reflexivity.
    + vm_compute; reflexivity.
    + vm_compute; reflexivity.
    + reflexivity.
    + right. split.
      * intros k' r' Hk'.
        assert (Hdb : tbl_categories db_food = {[ "c1" := row_food ]})
          by (vm_compute; reflexivity).
        rewrite Hdb in Hk'. apply lookup_singleton_Some in Hk' as [<- _].
        vm_compute. discriminate.
      * intros c' v' Hc'. by apply elem_of_nil in Hc'.
    + intros c' v' Hc'. by apply elem_of_nil in Hc'.
    + exists db'. split; [exact HB|]. split; [exact Hrow|].
      assert (Hdb' : db' = (Backup env_ok db_food only_food_2).2) by (by rewrite HB).
      rewrite Hdb'. vm_compute. reflexivity.
  - apply (category_of_stored_name_sets_icon env_ok db_food only_food_upper [] []
             c_food_upper
             ("c9", categories.mk "FOOD" "income" (Some "🥗") "2024-03-01T00:00:00")
             "c1" row_food).
    + split; [vm_compute; reflexivity|done].
    + vm_compute; reflexivity.
    + exact Hi.
    + exact Hu.
    + reflexivity.
    + vm_compute; reflexivity.
    + vm_compute; reflexivity.
    + vm_compute; reflexivity.
    + right. split.
      * intros k' r' Hk'.
        assert (Hdb : tbl_categories db_food = {[ "c1" := row_food ]})
          by (vm_compute; reflexivity).
        rewrite Hdb in Hk'. apply lookup_singleton_Some in Hk' as [<- _].
        vm_compute. discriminate.
      * intros c' v' Hc'. by apply elem_of_nil in Hc'.
    + intros c' v' Hc'. by apply elem_of_nil in Hc'.
Defined.

(** C4, the claim as stated fails: a snapshot with two transactions of
    the same id, backed up to empty storage, is restored as one
    transaction, the later one; the earlier record is not returned. *)
Lemma restore_drops_transaction_of_repeated_id :
  t_jan ∈ BackupData.transactions same_id_twice ∧
  transaction_row t_jan = Some row_jan ∧
  Backup env_ok no_rows same_id_twice
  = (Return (backup_response same_id_twice), db_same_id_twice) ∧
  Restore env_ok db_same_id_twice
  = (Return (RestoreResponse.mk [row_jan_again] [] []), db_same_id_twice) ∧
  row_jan ∉ [row_jan_again].
Proof.
  split; [simpl; set_solver|]. split; [vm_compute; reflexivity|].
  split; [vm_compute; reflexivity|]. split; [vm_compute; reflexivity|].
  intros H. apply list_elem_of_singleton in H. discriminate.
Qed.

(** C4, amended. Let a snapshot have transactions with pairwise distinct
    ids, budgets with pairwise distinct ids and pairwise distinct
    categories, and no two categories with the same id and different
    names, and let every column hold its field as it is (text within the
    width, amounts in whole hundredths within range). Given a healthy
    environment, Backup on empty storage succeeds and Restore then returns
    exactly the transactions and the budgets of the snapshot, each once
    and every field as submitted; and for each name among the categories
    it returns one row: it has the id, name, type and creation time of the
    first category of that name in the snapshot and the icon of the last.
    Ids, categories and names are the same, or distinct, as the collation
    of the tables ([key]) has it. *)
Theorem restore_returns_what_was_backed_up (env : Env) (key : Collation)
    (data : BackupData.t) :
  healthy env →
  Forall (λ t, is_Some (transaction_row t)) (BackupData.transactions data) →
  NoDup (key ∘ Transaction.id <$> BackupData.transactions data) →
  Forall (λ b, is_Some (budget_row b)) (BackupData.budgets data) →
  NoDup (key ∘ Budget.id <$> BackupData.budgets data) →
  NoDup (key ∘ Budget.category <$> BackupData.budgets data) →
  Forall (λ c, is_Some (category_row c)) (BackupData.categories data) →
  (∀ c c', c ∈ BackupData.categories data → c' ∈ BackupData.categories data →
     key (Category.id c) = key (Category.id c') →
     key (Category.name c) = key (Category.name c')) →
  ∃ db1 resp,
    Backup env (empty_database key) data = (Return (backup_response data), db1) ∧
    Restore env db1 = (Return resp, db1) ∧
    (∀ v, v ∈ RestoreResponse.transactions resp
          ↔ ∃ t, t ∈ BackupData.transactions data ∧ transaction_row t = Some v) ∧
    NoDup (RestoreResponse.transactions resp) ∧
    (∀ v, v ∈ RestoreResponse.budgets resp
          ↔ ∃ b, b ∈ BackupData.budgets data ∧ budget_row b = Some v) ∧
    NoDup (RestoreResponse.budgets resp) ∧
    (∀ l1 c1 l2 l3 c2 l4,
       BackupData.categories data = l1 ++ c1 :: l2 →
       (∀ c, c ∈ l1 → key (Category.name c) ≠ key (Category.name c1)) →
       BackupData.categories data = l3 ++ c2 :: l4 →
       key (Category.name c2) = key (Category.name c1) →
       (∀ c, c ∈ l4 → key (Category.name c) ≠ key (Category.name c1)) →
       let row := (Category.id c1,
                   categories.mk (Category.name c1) (Category.type c1)
                     (Category.icon c2) (Category.created_at c1)) in
       row ∈ RestoreResponse.categories resp ∧
       ∀ v, v ∈ RestoreResponse.categories resp →
            key (categories.name v.2) = key (Category.name c1) → v = row).
Proof.
  intros Hh Ht Htid Hb Hbid Hbcat Hc Hcoh.
  destruct (values_each_rows transactions_values transaction_row _
              transaction_row_values Ht) as (tvs & Htvs & Ht2).
  destruct (values_each_rows budgets_values budget_row _
              budget_row_values Hb) as (bvs & Hbvs & Hb2).
  destruct (values_each_rows categories_values category_row _
              category_row_values Hc) as (cvs & Hcvs & Hc2).
  rewrite (Backup_healthy env _ data tvs bvs cvs) by done.
  eexists. exists (restore_response
    (mkDatabase key
       (replace_transactions_rows key tvs ∅)
       (replace_budgets_rows key bvs ∅)
       (upsert_categories_rows key cvs ∅))).
  split; [done|]. split; [by apply Restore_healthy|]. simpl.
  split; [|split; [|split; [|split]]].
  - intros v. rewrite elem_of_select_transactions. simpl.
    rewrite replace_transactions_rows_NoDup.
    + destruct v. by apply Forall2_rows_elem.
    + rewrite <- list_fmap_compose.
      rewrite (Forall2_rows_fmap transaction_row (key ∘ Transaction.id)
                 (key ∘ fst) _ _
                 (λ t v H, f_equal key (transaction_row_id t v H)) Ht2). done.
  - unfold select_transactions_order_by_date_desc.
    rewrite merge_sort_Permutation. apply NoDup_map_to_list.
  - intros v. unfold select_budgets. simpl. destruct v as [k r].
    rewrite elem_of_map_to_list, replace_budgets_rows_NoDup.
    + by apply Forall2_rows_elem.
    + rewrite <- list_fmap_compose.
      rewrite (Forall2_rows_fmap budget_row (key ∘ Budget.id)
                 (key ∘ fst) _ _
                 (λ b v H, f_equal key (budget_row_id b v H)) Hb2). done.
    + rewrite <- list_fmap_compose.
      rewrite (Forall2_rows_fmap budget_row (key ∘ Budget.category)
                 ((key ∘ budgets.category) ∘ snd) _ _
                 (λ b v H, f_equal key (budget_row_category b v H)) Hb2). done.
  - apply NoDup_map_to_list.
  - assert (Hcvs_eq : cvs = category_tuple <$> BackupData.categories data).
    { rewrite <- (Forall2_rows_fmap category_row category_tuple id _ _
                    (λ c v H, category_row_eq c v H) Hc2).
      by rewrite list_fmap_id. }
    assert (Hcoh' : coherent key cvs).
    { rewrite Hcvs_eq. intros u v Hu Hv Heq.
      apply list_elem_of_fmap in Hu as (c & -> & Hu).
      apply list_elem_of_fmap in Hv as (c' & -> & Hv). simpl in *.
      by apply Hcoh. }
    intros l1 c1 l2 l3 c2 l4 Hs1 Hl1 Hs2 Hn Hl4.
    set (row := (Category.id c1,
                 categories.mk (Category.name c1) (Category.type c1)
                   (Category.icon c2) (Category.created_at c1))).
    unfold select_categories. simpl.
    set (m := upsert_categories_rows key cvs ∅).
    assert (Hu : names_unique key m)
      by apply upsert_categories_rows_names_unique, names_unique_empty.
    assert (Hrow : m !! row.1 = Some row.2).
    { assert (Hfirst : ∃ i, m !! Category.id c1
                = Some (categories.set_icon i (category_tuple c1).2)).
      { unfold m. rewrite Hcvs_eq, Hs1, fmap_app, fmap_cons.
        apply (upsert_categories_rows_first key _ (category_tuple c1)).
        - rewrite <- fmap_cons, <- fmap_app, <- Hs1, <- Hcvs_eq. done.
        - intros u Hu'. apply list_elem_of_fmap in Hu' as (c & -> & Hu').
          simpl. by apply Hl1. }
      destruct Hfirst as [i Hi]. simpl. rewrite Hi. f_equal.
      assert (Hicon : categories.icon (categories.set_icon i (category_tuple c1).2)
                      = categories.icon (category_tuple c2).2).
      { apply (upsert_categories_rows_last key (category_tuple <$> l3)
                 (category_tuple c2) (category_tuple <$> l4) (Category.id c1)).
        - rewrite <- fmap_cons, <- fmap_app, <- Hs2, <- Hcvs_eq. done.
        - intros u Hu'. apply list_elem_of_fmap in Hu' as (c & -> & Hu').
          simpl. rewrite Hn. by apply Hl4.
        - rewrite <- fmap_cons, <- fmap_app, <- Hs2, <- Hcvs_eq. exact Hi.
        - simpl. by rewrite Hn. }
      simpl in Hicon. subst i. done. }
    split.
    + destruct row as [k r]. by apply elem_of_map_to_list.
    + intros [k r] Hv Hname. apply elem_of_map_to_list in Hv. simpl in *.
      assert (k = Category.id c1) as ->.
      { eapply (Hu k (Category.id c1)); [exact Hv|exact Hrow|]. done. }
      unfold row. f_equal. congruence.
Qed.

Lemma restore_returns_what_was_backed_up_witness :
  (Restore env_ok (Backup env_ok no_rows full_snapshot).2).1
  = Return (RestoreResponse.mk
      [row_mar; row_jan]
      [("b1", budgets.mk "Food" 10000 "2024-01-01T00:00:00" "2024-01-01T00:00:00");
       ("b2", budgets.mk "Rent" 90000 "2024-02-01T00:00:00" "2024-02-01T00:00:00")]
      [("c1", categories.mk "Food" "expense" (Some "🍕") "2024-01-01T00:00:00")]) ∧
  ∃ db1 resp,
    Backup env_ok no_rows full_snapshot
    = (Return (backup_response full_snapshot), db1) ∧
    Restore env_ok db1 = (Return resp, db1) ∧
    (∀ v, v ∈ RestoreResponse.transactions resp
          ↔ ∃ t, t ∈ [t_jan; t_mar] ∧ transaction_row t = Some v) ∧
    (∀ v, v ∈ RestoreResponse.budgets resp
          ↔ ∃ b, b ∈ [b_food_1; b_rent_2] ∧ budget_row b = Some v) ∧
    ("c1", categories.mk "Food" "expense" (Some "🍕") "2024-01-01T00:00:00")
      ∈ RestoreResponse.categories resp.
Proof.
  split; [vm_compute; reflexivity|].
  destruct (restore_returns_what_was_backed_up env_ok case_insensitive
              full_snapshot)
    as (db1 & resp & HB & HR & Ht & _ & Hb & _ & Hc).
  - split; [vm_compute; reflexivity|done].
  - repeat constructor; vm_compute; eauto.
  - apply (bool_decide_unpack _). vm_compute. reflexivity.
  - repeat constructor; vm_compute; eauto.
  - apply (bool_decide_unpack _). vm_compute. reflexivity.
  - apply (bool_decide_unpack _). vm_compute. reflexivity.
  - repeat constructor; vm_compute; eauto.
  - intros c c' Hin Hin' Heq. simpl in Hin, Hin'.
    apply elem_of_cons in Hin as [->|Hin];
      [|apply elem_of_cons in Hin as [->|Hin]; [|by apply elem_of_nil in Hin]];
    (apply elem_of_cons in Hin' as [->|Hin'];
      [|apply elem_of_cons in Hin' as [->|Hin']; [|by apply elem_of_nil in Hin']]);
    first [reflexivity | vm_compute in Heq; discriminate Heq].
  - exists db1, resp. split; [exact HB|]. split; [exact HR|].
    split; [exact Ht|]. split; [exact Hb|].
    apply (Hc [] c_food [c_food_2] [c_food] c_food_2 []).
    + reflexivity.
    + intros c Hin. by apply elem_of_nil in Hin.
    + reflexivity.
    + reflexivity.
    + intros c Hin. by apply elem_of_nil in Hin.
Defined.

(** C5, the claim as stated fails: with the categories ["c1"] "Food",
    ["c2"] "Food" and ["c2"] "Drink" in one snapshot, the second category
    sets the icon of the row ["c1"] in the first call, where no row ["c2"]
    exists yet, and the icon of the row ["c2"] in the second call. The two
    calls succeed and leave different tables, and Restore tells them
    apart. *)
Lemma backup_twice_differs_from_once :
  (Backup env_ok no_rows three_categories).1
  = Return (backup_response three_categories) ∧
  (Backup env_ok db_three_once three_categories).1
  = Return (backup_response three_categories) ∧
  tbl_categories db_three_once !! "c1"
  = Some (categories.mk "Food" "expense" (Some "🍕") "2024-01-01T00:00:00") ∧
  tbl_categories db_three_twice !! "c1"
  = Some (categories.mk "Food" "expense" (Some "🍔") "2024-01-01T00:00:00") ∧
  db_three_twice ≠ db_three_once ∧
  (Restore env_ok db_three_twice).1 ≠ (Restore env_ok db_three_once).1.
Proof.
  split; [vm_compute; reflexivity|]. split; [vm_compute; reflexivity|].
  split; [vm_compute; reflexivity|]. split; [vm_compute; reflexivity|].
  split.
  - intros H. apply (f_equal (λ db, tbl_categories db !! "c1")) in H.
    vm_compute in H. discriminate.
  - intros H. vm_compute in H. discriminate.
Qed.

(** C5, amended. For every snapshot in which no two categories are
    stored under the same id with different names, and every storage in
    which the ids and the names of the categories are unique, as the keys
    of the table keep them: calling Backup twice in succession with that
    snapshot, in the same environment, leaves storage in the same state as
    calling it once, and Restore returns the same in both. Ids and names
    are the same when the collation of the tables gives them the same
    weight. *)
Theorem backup_twice_is_backup_once (env : Env) (db : Database)
    (data : BackupData.t) :
  ids_unique (collation db) (tbl_categories db) →
  names_unique (collation db) (tbl_categories db) →
  coherent_categories (collation db) (BackupData.categories data) →
  (Backup env (Backup env db data).2 data).2 = (Backup env db data).2 ∧
  ∀ env', Restore env' (Backup env (Backup env db data).2 data).2
          = Restore env' (Backup env db data).2.
Proof.
  intros Hi Hu Hc.
  assert (H : (Backup env (Backup env db data).2 data).2 = (Backup env db data).2).
  { destruct (Backup env db data) as [r db1] eqn:H1. simpl.
    pose proof H1 as H2.
    apply Backup_inv in H2 as [(-> & Hconn & Hl & Ha)|(e & -> & ->)].
    - rewrite (Backup_run env db1 db1 data); [done|done|done|].
      by eapply apply_backup_idempotent.
    - by rewrite H1. }
  split; [done|]. intros env'. by rewrite H.
Qed.

Lemma backup_twice_is_backup_once_witness :
  coherent_categories case_insensitive (BackupData.categories full_snapshot) ∧
  (Backup env_ok (Backup env_ok db_food full_snapshot).2 full_snapshot).2
  = (Backup env_ok db_food full_snapshot).2 ∧
  ∀ env', Restore env' (Backup env_ok (Backup env_ok db_food full_snapshot).2
                          full_snapshot).2
          = Restore env' (Backup env_ok db_food full_snapshot).2.
Proof.
  assert (Hk : keys_unique db_food)
    by apply (Backup_keys_unique env_ok no_rows only_food), keys_unique_empty.
  destruct Hk as (_ & _ & _ & Hi & Hu).
  assert (Hc : coherent_categories case_insensitive
                 (BackupData.categories full_snapshot)).
  { intros c c' v v' Hin Hin' Hv Hv' Heq. simpl in Hin, Hin'.
    apply elem_of_cons in Hin as [->|Hin];
      [|apply elem_of_cons in Hin as [->|Hin]; [|by apply elem_of_nil in Hin]];
    (apply elem_of_cons in Hin' as [->|Hin'];
      [|apply elem_of_cons in Hin' as [->|Hin']; [|by apply elem_of_nil in Hin']]);
    vm_compute in Hv, Hv'; injection Hv as <-; injection Hv' as <-;
    first [reflexivity | vm_compute in Heq; discriminate Heq]. }
  split; [exact Hc|].
  exact (backup_twice_is_backup_once env_ok db_food full_snapshot Hi Hu Hc).
Defined.



(** C7. A successful Backup reports, for each kind of record, the length
    of the submitted sequence; with a healthy environment the empty snapshot
    succeeds, reports three zeros and leaves storage as it was. *)
Theorem backup_reports_submitted_counts (env : Env) (db : Database)
    (data : BackupData.t) :
  (∀ resp db', Backup env db data = (Return resp, db') →
     BackupResponse.status resp = "success" ∧
     BackupResponse.transactions_backed_up resp
       = length (BackupData.transactions data) ∧
     BackupResponse.budgets_backed_up resp = length (BackupData.budgets data) ∧
     BackupResponse.categories_backed_up resp
       = length (BackupData.categories data)) ∧
  (healthy env →
   Backup env db empty_snapshot
   = (Return (BackupResponse.mk "success" "Backup completed successfully" 0 0 0),
      db)).
Proof.
  split.
  - intros resp db' H. apply Backup_inv in H as [(H & _)|(e & H & _)]; [|done].
    injection H as ->. done.
  - intros Hh. apply Backup_run; [apply Hh|by apply healthy_link_holds|done].
Qed.

Lemma backup_reports_submitted_counts_witness :
  healthy env_ok ∧
  (∃ resp db',
     Backup env_ok no_rows same_id_twice = (Return resp, db') ∧
     BackupResponse.transactions_backed_up resp = 2%nat ∧
     BackupResponse.budgets_backed_up resp = 0%nat ∧
     BackupResponse.categories_backed_up resp = 0%nat ∧
     size (tbl_transactions db') = 1%nat) ∧
  Backup env_ok db_two_dates empty_snapshot
  = (Return (BackupResponse.mk "success" "Backup completed successfully" 0 0 0),
     db_two_dates).
Proof.
  assert (Hh : healthy env_ok) by (split; [vm_compute; reflexivity|done]).
  split; [exact Hh|]. split.
  - destruct (Backup env_ok no_rows same_id_twice) as [r db'] eqn:HB.
    assert (Hr : r = Return (backup_response same_id_twice)).
    { change r with (r, db').1. rewrite <- HB. vm_compute. reflexivity. }
    subst r. exists (backup_response same_id_twice), db'. split; [done|].
    destruct (proj1 (backup_reports_submitted_counts env_ok no_rows
                       same_id_twice) _ _ HB) as (_ & Ht & Hb & Hc).
    split; [exact Ht|]. split; [exact Hb|]. split; [exact Hc|].
    change db' with (Return (backup_response same_id_twice), db').2.
    rewrite <- HB. vm_compute. reflexivity.
  - exact (proj2 (backup_reports_submitted_counts env_ok db_two_dates
                    empty_snapshot) Hh).
Defined.

(** C8. HealthCheck never raises and never changes what is stored,
    whatever the environment: it returns the healthy dictionary when
    [get_db_connection] hands out a connection and the unhealthy one in
    every other case. *)
Theorem health_check_never_raises (env : Env) (db : Database) :
  ∃ resp, HealthCheck env db = (Return resp, db) ∧
    HealthResponse.status resp
      = (if obtains_connection env then "healthy" else "unhealthy") ∧
    HealthResponse.database resp
      = (if obtains_connection env then "connected" else "disconnected").
Proof.
  unfold HealthCheck, request, health_check, try_except.
  unfold mbind at 1, M_bind at 1. rewrite get_db_connection_eq.
  unfold obtains_connection.
  destruct (vars_present env); [|simpl; eauto].
  destruct (server_accepts env); [|simpl; eauto].
  destruct (is_connected env); simpl; munfold; simpl; eauto.
Qed.

(** Three outcomes of HealthCheck: healthy, a missing variable, a server that
    refuses the connection. *)
Example health_check_examples :
  HealthCheck env_ok db_two_dates
  = (Return (HealthResponse.mk "healthy" "connected"
               (Some "API is running and database is accessible") None),
     db_two_dates) ∧
  HealthCheck env_no_password db_two_dates
  = (Return (HealthResponse.mk "unhealthy" "disconnected" None
               (Some "500: Missing required environment variables: DB_PASSWORD")),
     db_two_dates) ∧
  HealthCheck env_unreachable db_two_dates
  = (Return (HealthResponse.mk "unhealthy" "disconnected" None
               (Some ("500: Database connection failed: " +:+ refused))),
     db_two_dates).
Proof. repeat split; vm_compute; reflexivity. Qed.






(** * Further properties of the handlers *)

(** How a loop of statements fails: the link broke, and the connection is
    gone, or a statement was refused, and the connection is still there. *)
Lemma for_each_execute_raise (env : Env) {A : Type}
    (f : A → Database → fitted Database) (l : list A) (w w' : World)
    (e : Exception) (view : Database) :
  session w = Some view →
  for_each l (λ x, execute env (f x)) w = (Raise e, w') →
  (e = Error (ConnectionLost (link_error env)) ∧ session w' = None
   ∧ ∃ i, (trips w ≤ i < trips w + length l)%nat ∧ link_up env i = false)
  ∨ (∃ err, e = Error err ∧ apply_each f l view = inl err ∧ is_Some (session w')
            ∧ (trips w' ≤ trips w + length l)%nat).
Proof.
  revert w view. induction l as [|x l IH]; intros w view Hs; simpl; [done|].
  munfold. unfold execute, round_trip. munfold. rewrite Hs.
  destruct (link_up env (trips w)) eqn:Hl; simpl.
  - destruct (f x view) as [err|view1] eqn:Hf; simpl.
    + intros [= <- <-]. right. exists err. simpl.
      split; [done|]. split; [done|]. split; [eauto|lia].
    + intros H. apply (IH _ view1) in H; [|done].
      destruct H as [(-> & Hs' & i & Hi & Hli)|(err & -> & Ha & Hs' & Ht)].
      2:{ right. exists err. simpl in Ht.
          split; [done|]. split; [done|]. split; [done|lia]. }
      left. split; [done|]. split; [done|]. exists i. simpl in Hi.
      split; [lia|done].
  - intros [= <- <-]. left. split; [done|]. split; [done|].
    exists (trips w). split; [lia|done].
Qed.

Lemma backup_try_raise (env : Env) (data : BackupData.t) (w w' : World)
    (e : Exception) (view : Database) :
  session w = Some view →
  backup_try env data w = (Raise e, w') →
  (e = Error (ConnectionLost (link_error env)) ∧ session w' = None
   ∧ ∃ i, (trips w ≤ i ≤ trips w + statements data)%nat ∧ link_up env i = false)
  ∨ (∃ err, e = Error err ∧ apply_backup data view = inl err
            ∧ is_Some (session w')
            ∧ (trips w' ≤ trips w + statements data)%nat).
Proof.
  intros Hs. unfold backup_try, apply_backup, statements.
  unfold mbind at 1, M_bind at 1.
  destruct (for_each (BackupData.transactions data) _ w) as [[[]|e1] w1] eqn:H1.
  2:{ intros [= <- <-].
      apply (for_each_execute_raise _ _ _ _ _ _ view) in H1; [|done].
      destruct H1 as [(-> & ? & i & Hi & ?)|(err & -> & Ha & ? & Ht)].
      - left. split; [done|]. split; [done|]. exists i. split; [lia|done].
      - right. exists err. rewrite Ha.
        split; [done|]. split; [done|]. split; [done|lia]. }
  apply (for_each_execute_inv _ _ _ _ _ _ view) in H1; [|done].
  destruct H1 as [[_ (v1 & Ha1 & -> & _)]|[? ?]]; [|done].
  rewrite Ha1. simpl.
  unfold mbind at 1, M_bind at 1.
  destruct (for_each (BackupData.budgets data) _ _) as [[[]|e2] w2] eqn:H2.
  2:{ intros [= <- <-].
      apply (for_each_execute_raise _ _ _ _ _ _ v1) in H2; [|done].
      destruct H2 as [(-> & ? & i & Hi & ?)|(err & -> & Ha & ? & Ht)].
      - left. split; [done|]. split; [done|]. exists i. simpl in Hi.
        split; [lia|done].
      - right. exists err. rewrite Ha. simpl in Ht.
        split; [done|]. split; [done|]. split; [done|lia]. }
  apply (for_each_execute_inv _ _ _ _ _ _ v1) in H2; [|done].
  destruct H2 as [[_ (v2 & Ha2 & -> & _)]|[? ?]]; [|done].
  rewrite Ha2. simpl.
  unfold mbind at 1, M_bind at 1.
  destruct (for_each (BackupData.categories data) _ _) as [[[]|e3] w3] eqn:H3.
  2:{ intros [= <- <-].
      apply (for_each_execute_raise _ _ _ _ _ _ v2) in H3; [|done].
      destruct H3 as [(-> & ? & i & Hi & ?)|(err & -> & Ha & ? & Ht)].
      - left. split; [done|]. split; [done|]. exists i. simpl in Hi.
        split; [lia|done].
      - right. exists err. rewrite Ha. simpl in Ht.
        split; [done|]. split; [done|]. split; [done|lia]. }
  apply (for_each_execute_inv _ _ _ _ _ _ v2) in H3; [|done].
  destruct H3 as [[_ (v3 & Ha3 & -> & _)]|[? ?]]; [|done].
  unfold commit, round_trip. munfold. simpl.
  destruct (link_up env _) eqn:Hl; simpl; [done|].
  intros [= <- <-]. left. split; [done|]. split; [done|].
  eexists. split; [|exact Hl]. lia.
Qed.

(** With a connection in hand, [backup] is its [try] statement. *)
Lemma Backup_connected (env : Env) (db : Database) (data : BackupData.t) :
  obtains_connection env = true →
  link_up env 0 = true →
  Backup env db data
  = (let '(r, w) := try_finally (try_except (backup_try env data) (backup_except env))
                      close (mkWorld db (Some db) 1) in (r, storage w)).
Proof.
  intros Hc H0. unfold Backup, request, backup.
  unfold mbind at 1, M_bind at 1. rewrite get_db_connection_eq.
  unfold obtains_connection in Hc.
  destruct (vars_present env); [|done].
  destruct (server_accepts env); [|done].
  destruct (is_connected env); [|done].
  unfold mbind at 1, M_bind at 1. unfold cursor. munfold. simpl.
  by rewrite H0.
Qed.

Lemma Backup_no_cursor (env : Env) (db : Database) (data : BackupData.t) :
  obtains_connection env = true →
  link_up env 0 = false →
  Backup env db data = (Raise (Error ConnectionNotAvailable), db).
Proof.
  intros Hc H0. unfold Backup, request, backup.
  unfold mbind at 1, M_bind at 1. rewrite get_db_connection_eq.
  unfold obtains_connection in Hc.
  destruct (vars_present env); [|done].
  destruct (server_accepts env); [|done].
  destruct (is_connected env); [|done].
  unfold mbind at 1, M_bind at 1. unfold cursor. munfold. simpl.
  by rewrite H0.
Qed.

Lemma accepted_apply_backup (data : BackupData.t) (db : Database) :
  accepted data = true ↔ ∃ db', apply_backup data db = inr db'.
Proof.
  rewrite apply_backup_eq. unfold accepted, snapshot_values.
  destruct (values_each _ (BackupData.transactions data)) as [|tvs]; simpl;
    [split; [done|by intros [? ?]]|].
  destruct (values_each _ (BackupData.budgets data)) as [|bvs]; simpl;
    [split; [done|by intros [? ?]]|].
  destruct (values_each _ (BackupData.categories data)) as [|cvs]; simpl;
    [split; [done|by intros [? ?]]|].
  split; [eauto|done].
Qed.

Lemma snapshot_values_apply_backup (data : BackupData.t) (db : Database) err :
  snapshot_values data = inl err ↔ apply_backup data db = inl err.
Proof.
  rewrite apply_backup_eq. unfold snapshot_values.
  destruct (values_each _ (BackupData.transactions data)) as [|tvs]; simpl;
    [split; congruence|].
  destruct (values_each _ (BackupData.budgets data)) as [|bvs]; simpl;
    [split; congruence|].
  destruct (values_each _ (BackupData.categories data)) as [|cvs]; simpl;
    split; congruence.
Qed.

Lemma forallb_negb_filter {A : Type} (p : A → bool) (l : list A) :
  forallb (λ x, negb (p x)) l = true → List.filter p l = [].
Proof.
  induction l as [|x l IH]; simpl; [done|].
  destruct (p x); simpl; [done|]. exact IH.
Qed.

(** X1. [get_db_connection] looks at the environment before it tries
    the server: when a required variable is unset or empty it raises an
    HTTPException with status 500 that lists those variables, in the order
    DB_HOST, DB_USER, DB_PASSWORD, DB_NAME, and no connection is opened,
    whatever the server would have answered. *)
Theorem get_db_connection_lists_missing_variables (env : Env) (w : World) :
  missing_vars env ≠ [] →
  get_db_connection env w
  = (Raise (HTTPException 500
      ("Missing required environment variables: "
       +:+ join ", " (missing_vars env))), w) ∧
  (∀ var, var ∈ missing_vars env ↔
     var ∈ required_vars ∧ (getenv env var = None ∨ getenv env var = Some "")) ∧
  missing_vars env `sublist_of` required_vars.
Proof.
  intros Hm. split; [|split].
  - rewrite get_db_connection_eq. unfold vars_present.
    assert (Hf : forallb (λ var, negb (not_getenv env var)) required_vars = false).
    { destruct (forallb _ _) eqn:H; [|done]. exfalso. apply Hm.
      by apply forallb_negb_filter. }
    by rewrite Hf.
  - intros var. unfold missing_vars.
    rewrite !list_elem_of_In, filter_In. unfold not_getenv.
    destruct (getenv env var) as [v|]; [|naive_solver].
    split.
    + intros [Hin Hv]. split; [done|]. right. f_equal.
      by apply String.eqb_eq.
    + intros [Hin [?|[= ->]]]; [done|]. done.
  - unfold missing_vars. generalize required_vars. intros l.
    induction l as [|x l IH]; simpl; [done|].
    destruct (not_getenv env x); by constructor.
Qed.

Lemma get_db_connection_lists_missing_variables_witness :
  get_db_connection env_two_missing (mkWorld db_two_dates None 0)
  = (Raise (HTTPException 500
      "Missing required environment variables: DB_USER, DB_NAME"),
     mkWorld db_two_dates None 0).
Proof.
  assert (Hm : missing_vars env_two_missing = ["DB_USER"; "DB_NAME"])
    by (vm_compute; reflexivity).
  destruct (get_db_connection_lists_missing_variables env_two_missing
              (mkWorld db_two_dates None 0)) as (H & _).
  - by rewrite Hm.
  - rewrite H, Hm. reflexivity.
Defined.

(** X2. Whatever the environment, [get_db_connection] leaves what is
    committed alone and lets no exception out but an HTTPException with
    status 500 (the driver's [Error] and the [ValueError] are both
    converted), in which case the world is as before. It returns a
    connection exactly when the four variables are set, the server accepts
    and [is_connected] answers yes; it returns [None] exactly when the
    variables are set, the server accepts and [is_connected] answers no;
    it raises in the other cases, those of a variable that is missing and
    of a server that does not accept. *)
Theorem get_db_connection_returns_or_raises_http_500 (env : Env) (w w' : World)
    (r : Outcome (option MySQLConnection)) :
  get_db_connection env w = (r, w') →
  storage w' = storage w ∧
  (r = Return (Some Connection) ↔ obtains_connection env = true) ∧
  (r = Return None
   ↔ vars_present env = true ∧ server_accepts env = true
     ∧ is_connected env = false) ∧
  ((∃ e, r = Raise e)
   ↔ vars_present env = false ∨ server_accepts env = false) ∧
  (∀ e, r = Raise e → w' = w ∧ ∃ detail, e = HTTPException 500 detail) ∧
  (∀ c, r = Return c → session w' = Some (storage w)).
Proof.
  rewrite get_db_connection_eq. unfold obtains_connection.
  destruct (vars_present env), (server_accepts env), (is_connected env);
    intros [= <- <-]; simpl;
    (split; [done|]); (split; [split; [done|done]|]);
    (split; [split; [try done; by intros (? & ? & ?)|try done;
                     by intros (? & ? & ?)]|]);
    (split; [split; [try (by intros [? ?]); eauto|
                     try (by intros [?|?]); eauto]|]);
    (split; [intros e He; try done; injection He as <-; eauto|]);
    intros c Hc; try done.
Qed.

Lemma get_db_connection_returns_or_raises_http_500_witness :
  (get_db_connection env_not_connected (mkWorld db_two_dates None 0)).1
  = Return None ∧
  (get_db_connection env_ok (mkWorld db_two_dates None 0)).1
  = Return (Some Connection) ∧
  storage (get_db_connection env_unreachable (mkWorld db_two_dates None 0)).2
  = db_two_dates.
Proof.
  split; [|split].
  - destruct (get_db_connection env_not_connected (mkWorld db_two_dates None 0))
      as [r w'] eqn:H.
    apply (get_db_connection_returns_or_raises_http_500 _ _ _ _ H).
    vm_compute. done.
  - destruct (get_db_connection env_ok (mkWorld db_two_dates None 0))
      as [r w'] eqn:H.
    apply (get_db_connection_returns_or_raises_http_500 _ _ _ _ H).
    vm_compute. done.
  - destruct (get_db_connection env_unreachable (mkWorld db_two_dates None 0))
      as [r w'] eqn:H.
    apply (get_db_connection_returns_or_raises_http_500 _ _ _ _ H).
Defined.

(** X3. A Backup call succeeds exactly when [get_db_connection] hands
    out a connection, the link holds through the cursor, every statement
    and the commit, and every record fits its columns. What is already
    stored plays no part: no stored row can make a call fail. *)
Theorem backup_succeeds_iff (env : Env) (db : Database) (data : BackupData.t) :
  (∃ resp db', Backup env db data = (Return resp, db'))
  ↔ obtains_connection env = true
    ∧ link_holds env (S (S (statements data)))
    ∧ accepted data = true.
Proof.
  split.
  - intros (resp & db' & H).
    apply Backup_inv in H as [(_ & Hc & Hl & Ha)|(e & ? & _)]; [|done].
    split; [done|]. split; [done|]. apply (accepted_apply_backup data db). eauto.
  - intros (Hc & Hl & Ha).
    apply (accepted_apply_backup data db) in Ha as [db' Ha].
    exists (backup_response data), db'. by apply Backup_run.
Qed.

Lemma backup_succeeds_iff_witness :
  (∃ resp db', Backup env_ok db_first_budget second_budget = (Return resp, db')) ∧
  ¬ (∃ resp db', Backup env_ok db_first_budget good_then_bad = (Return resp, db')).
Proof.
  split.
  - apply (backup_succeeds_iff env_ok db_first_budget second_budget).
    split; [vm_compute; reflexivity|]. split; [done|]. vm_compute; reflexivity.
  - intros H.
    apply (backup_succeeds_iff env_ok db_first_budget good_then_bad) in H
      as (_ & _ & H).
    vm_compute in H. discriminate.
Defined.

(** X4. In an environment where nothing goes wrong, a Backup call with a
    record that violates a column constraint raises an HTTPException with
    status 500 whose detail is "Backup failed: " followed by the server's
    message for the first record that fails, in the order transactions,
    budgets, categories: the unknown name [inf] of an infinite amount, or
    else the first column that does not take its value, a [nan] among them
    as the [NULL] it is sent as. Storage is left as it was. *)
Theorem backup_echoes_first_violation (env : Env) (db : Database)
    (data : BackupData.t) (err : MySQLError) :
  healthy env →
  snapshot_values data = inl err →
  Backup env db data
  = (Raise (HTTPException 500 ("Backup failed: " +:+ str_MySQLError err)), db).
Proof.
  intros [Hc Hl] Hv. apply (snapshot_values_apply_backup data db) in Hv.
  rewrite Backup_connected by done. unfold try_finally, try_except.
  destruct (backup_try env data _) as [[resp|e] w1] eqn:Ht.
  - apply (backup_try_inv _ _ _ _ _ db) in Ht; [|done].
    destruct Ht as [(_ & _ & Ha)|(e & ? & _)]; [|done]. congruence.
  - pose proof Ht as Ht'.
    apply (backup_try_inv _ _ _ _ _ db) in Ht'; [|done].
    destruct Ht' as [(? & _)|(e' & _ & Hst)]; [done|].
    apply (backup_try_raise _ _ _ _ _ db) in Ht; [|done].
    destruct Ht as [(_ & _ & i & _ & Hi)|(err' & -> & Ha & [v Hs] & _)].
    { rewrite Hl in Hi. done. }
    assert (err' = err) as -> by congruence.
    simpl. unfold rollback, round_trip. munfold. rewrite Hs, Hl. simpl.
    by rewrite Hst.
Qed.

Lemma backup_echoes_first_violation_witness :
  Backup env_ok db_two_dates good_then_bad
  = (Raise (HTTPException 500
       "Backup failed: 1406 (22001): Data too long for column 'id' at row 1"),
     db_two_dates) ∧
  Backup env_ok db_two_dates not_a_number
  = (Raise (HTTPException 500
       "Backup failed: 1048 (23000): Column 'amount' cannot be null"),
     db_two_dates) ∧
  Backup env_ok db_two_dates minus_infinity
  = (Raise (HTTPException 500
       "Backup failed: 1054 (42S22): Unknown column 'inf' in 'field list'"),
     db_two_dates).
Proof.
  assert (Hh : healthy env_ok) by (split; [vm_compute; reflexivity|done]).
  split; [|split].
  - apply (backup_echoes_first_violation env_ok db_two_dates good_then_bad
             (DataTooLong "id") Hh).
    vm_compute. reflexivity.
  - apply (backup_echoes_first_violation env_ok db_two_dates not_a_number
             (BadNull "amount") Hh).
    vm_compute. reflexivity.
  - apply (backup_echoes_first_violation env_ok db_two_dates minus_infinity
             (UnknownColumn "inf") Hh).
    vm_compute. reflexivity.
Defined.

(** X5. When the link breaks during a statement or the commit of a
    Backup whose records all fit, after the cursor was handed out, the
    [rollback] of the [except] clause is attempted on the lost connection
    and raises in its turn: the caller gets the driver's error, not the
    HTTPException of the clause. Storage is left as it was. *)
Theorem backup_link_break_escapes_handler (env : Env) (db : Database)
    (data : BackupData.t) (i : nat) :
  obtains_connection env = true →
  accepted data = true →
  link_up env 0 = true →
  (1 ≤ i ≤ S (statements data))%nat →
  link_up env i = false →
  Backup env db data = (Raise (Error (ConnectionLost (link_error env))), db).
Proof.
  intros Hc Hacc H0 Hi Hdown.
  apply (accepted_apply_backup data db) in Hacc as [db1 Ha].
  rewrite Backup_connected by done. unfold try_finally, try_except.
  destruct (backup_try env data _) as [[resp|e] w1] eqn:Ht.
  - apply (backup_try_inv _ _ _ _ _ db) in Ht; [|done].
    destruct Ht as [(_ & Hl & _)|(e & ? & _)]; [|done].
    simpl in Hl. rewrite Hl in Hdown by lia. done.
  - pose proof Ht as Ht'.
    apply (backup_try_inv _ _ _ _ _ db) in Ht'; [|done].
    destruct Ht' as [(? & _)|(e' & _ & Hst)]; [done|].
    apply (backup_try_raise _ _ _ _ _ db) in Ht; [|done].
    destruct Ht as [(-> & Hs & _)|(err' & _ & Ha' & _ & _)]; [|congruence].
    simpl. unfold rollback, round_trip. munfold. rewrite Hs. simpl.
    by rewrite Hst.
Qed.

Lemma backup_link_break_escapes_handler_witness :
  Backup env_link_breaks db_first_budget two_dates
  = (Raise (Error (ConnectionLost lost)), db_first_budget).
Proof.
  apply (backup_link_break_escapes_handler env_link_breaks db_first_budget
           two_dates 1).
  - vm_compute; reflexivity.
  - vm_compute; reflexivity.
  - reflexivity.
  - vm_compute; lia.
  - reflexivity.
Defined.

(** X6. When [connect] returns a connection on which [is_connected] is
    false, [get_db_connection] falls off its end and returns [None]:
    [backup] and [restore] then raise an AttributeError at
    [connection.cursor()], before their [try], and [health_check] reports
    unhealthy with the AttributeError of [connection.close()]. Storage is
    left as it was in all three. *)
Theorem none_connection_is_not_handled (env : Env) (db : Database)
    (data : BackupData.t) :
  vars_present env = true →
  server_accepts env = true →
  is_connected env = false →
  Backup env db data
  = (Raise (AttributeError "'NoneType' object has no attribute 'cursor'"), db) ∧
  Restore env db
  = (Raise (AttributeError "'NoneType' object has no attribute 'cursor'"), db) ∧
  HealthCheck env db
  = (Return (HealthResponse.mk "unhealthy" "disconnected" None
               (Some "'NoneType' object has no attribute 'close'")), db).
Proof.
  intros Hv Hs Hc.
  unfold Backup, Restore, HealthCheck, request, backup, restore, health_check,
    try_except.
  unfold mbind at 1 3 5, M_bind at 1 3 5.
  rewrite !get_db_connection_eq, Hv, Hs, Hc. done.
Qed.

Lemma none_connection_is_not_handled_witness :
  Backup env_not_connected db_two_dates two_dates
  = (Raise (AttributeError "'NoneType' object has no attribute 'cursor'"),
     db_two_dates).
Proof.
  apply (none_connection_is_not_handled env_not_connected db_two_dates two_dates);
    vm_compute; reflexivity.
Defined.

(** X7. The exceptions of Backup: an HTTPException with status 500, the
    AttributeError of a connection that is [None], the driver's error for
    a connection that is not available, raised by [connection.cursor()]
    before the [try], or the driver's error for a lost connection, raised
    by the [rollback] of the [except] clause. Nothing else leaves the
    handler, and storage is as before the call. *)
Theorem backup_raises_one_of_four (env : Env) (db db' : Database)
    (data : BackupData.t) (e : Exception) :
  Backup env db data = (Raise e, db') →
  db' = db ∧
  ((∃ detail, e = HTTPException 500 detail)
   ∨ (e = AttributeError "'NoneType' object has no attribute 'cursor'"
      ∧ is_connected env = false)
   ∨ (e = Error ConnectionNotAvailable ∧ link_up env 0 = false)
   ∨ (e = Error (ConnectionLost (link_error env))
      ∧ link_up env 0 = true
      ∧ ∃ i, (1 ≤ i ≤ S (S (statements data)))%nat ∧ link_up env i = false)).
Proof.
  intros H. split.
  { apply Backup_inv in H as [(? & _)|(e' & _ & ->)]; done. }
  destruct (obtains_connection env) eqn:Hc.
  - destruct (link_up env 0) eqn:H0.
    2:{ rewrite Backup_no_cursor in H by done. injection H as <-.
        right. right. left. done. }
    rewrite Backup_connected in H by done.
    unfold try_finally, try_except in H.
    destruct (backup_try env data _) as [[resp|e0] w1] eqn:Ht; [done|].
    pose proof Ht as Ht'.
    apply (backup_try_inv _ _ _ _ _ db) in Ht'; [|done].
    destruct Ht' as [(? & _)|(e' & _ & Hst)]; [done|].
    apply (backup_try_raise _ _ _ _ _ db) in Ht; [|done].
    destruct Ht as [(-> & Hs & i & Hi & Hdown)|(err & -> & _ & [v Hs] & Htr)].
    + simpl in H. unfold rollback, round_trip in H. munfold.
      rewrite Hs in H. simpl in H. injection H as <-.
      right. right. right. split; [done|]. split; [done|].
      exists i. simpl in Hi. split; [lia|done].
    + simpl in H. unfold rollback, round_trip in H. munfold.
      rewrite Hs in H.
      destruct (link_up env (trips w1)) eqn:Hl; simpl in H; injection H as <-.
      * left. eauto.
      * right. right. right. split; [done|]. split; [done|].
        exists (trips w1). simpl in Htr. split; [|done].
        split; [|lia]. destruct (trips w1); [congruence|lia].
  - unfold Backup, request, backup in H.
    unfold mbind at 1, M_bind at 1 in H. rewrite get_db_connection_eq in H.
    unfold obtains_connection in Hc.
    destruct (vars_present env); [|injection H as <-; eauto].
    destruct (server_accepts env); [|injection H as <-; eauto].
    destruct (is_connected env); [done|].
    injection H as <-. right. left. done.
Qed.

Lemma backup_raises_one_of_four_witness :
  db_first_budget = db_first_budget ∧
  ((∃ detail, Error ConnectionNotAvailable = HTTPException 500 detail)
   ∨ (Error ConnectionNotAvailable
      = AttributeError "'NoneType' object has no attribute 'cursor'"
      ∧ is_connected env_no_cursor = false)
   ∨ (Error ConnectionNotAvailable = Error ConnectionNotAvailable
      ∧ link_up env_no_cursor 0 = false)
   ∨ (Error ConnectionNotAvailable
      = Error (ConnectionLost (link_error env_no_cursor))
      ∧ link_up env_no_cursor 0 = true
      ∧ ∃ i, (1 ≤ i ≤ S (S (statements two_dates)))%nat
             ∧ link_up env_no_cursor i = false)).
Proof.
  apply (backup_raises_one_of_four env_no_cursor db_first_budget
           db_first_budget two_dates (Error ConnectionNotAvailable)).
  vm_compute. reflexivity.
Defined.

(** ** What a call leaves of the stored rows *)

(** X8. A Backup call, whatever its outcome, removes no transaction and
    no category: a stored transaction stays stored, under its id or under
    an id that the collation of the table takes for the same, and a stored
    category keeps its id, name, type and creation date, the icon alone
    can change. (Budgets have no such guarantee, [REPLACE] deletes the row
    that holds the category under another id.) *)
Theorem backup_keeps_transactions_and_categories (env : Env) (db : Database)
    (data : BackupData.t) (k : string) :
  (is_Some (tbl_transactions db !! k) →
   ∃ k', collation db k' = collation db k
         ∧ is_Some (tbl_transactions (Backup env db data).2 !! k')) ∧
  (∀ r, tbl_categories db !! k = Some r →
     ∃ icon, tbl_categories (Backup env db data).2 !! k
             = Some (categories.set_icon icon r)).
Proof.
  destruct (Backup_storage env db data) as [->|(tvs & bvs & cvs & _ & _ & _ & ->)].
  - split; [by exists k|]. intros r Hr. exists (categories.icon r). rewrite Hr.
    by destruct r.
  - simpl. split.
    + apply replace_transactions_rows_keeps.
    + intros r. apply upsert_categories_rows_keeps.
Qed.

Lemma backup_keeps_transactions_and_categories_witness :
  tbl_transactions (Backup env_ok db_two_dates only_jan_upper).2 !! "t1" = None ∧
  ∃ k', case_insensitive k' = case_insensitive "t1"
        ∧ is_Some (tbl_transactions (Backup env_ok db_two_dates only_jan_upper).2
                     !! k').
Proof.
  split; [vm_compute; reflexivity|].
  apply (backup_keeps_transactions_and_categories env_ok db_two_dates
           only_jan_upper "t1").
  vm_compute. eauto.
Defined.

(** X9. A Backup call leaves alone what its records do not address: a
    transaction id that no record has; a budget id when no record has it
    or carries the category stored there; a category id when no record
    has it or carries the name stored there. Ids, categories and names are
    compared as the collation of the tables compares them. This holds on
    every outcome of the call. *)
Theorem backup_leaves_unaddressed_rows (env : Env) (db : Database)
    (data : BackupData.t) (k : string) :
  let key := collation db in
  ((∀ t v, t ∈ BackupData.transactions data → transactions_values t = inr v →
      key v.1 ≠ key k) →
   tbl_transactions (Backup env db data).2 !! k = tbl_transactions db !! k) ∧
  ((∀ b v, b ∈ BackupData.budgets data → budgets_values b = inr v →
      key v.1 ≠ key k ∧
      Some (key (budgets.category v.2))
      ≠ key ∘ budgets.category <$> tbl_budgets db !! k) →
   tbl_budgets (Backup env db data).2 !! k = tbl_budgets db !! k) ∧
  ((∀ c v, c ∈ BackupData.categories data → categories_values c = inr v →
      key v.1 ≠ key k ∧
      Some (key (categories.name v.2))
      ≠ key ∘ categories.name <$> tbl_categories db !! k) →
   tbl_categories (Backup env db data).2 !! k = tbl_categories db !! k).
Proof.
  intros key. subst key.
  destruct (Backup_storage env db data)
    as [->|(tvs & bvs & cvs & Ht & Hb & Hc & ->)]; [done|].
  simpl. split; [|split].
  - intros H.
    pose proof (values_elem_of _ _ _ _ Ht H) as Hvs. simpl in Hvs.
    unfold replace_transactions_rows.
    destruct (tbl_transactions db !! k) as [r|] eqn:Hk.
    + apply replace_rows_untouched; [done|].
      intros u Hu. pose proof (Hvs u Hu) as Hne. split; [congruence|].
      unfold same_transaction. simpl. congruence.
    + destruct (replace_rows_other (same_transaction (collation db)) tvs
                  (tbl_transactions db) k) as [E|E];
        [|by rewrite E|done].
      intros (v & -> & Hv)%list_elem_of_fmap. by apply (Hvs v Hv).
  - intros H.
    pose proof (values_elem_of _ _ _ _ Hb H) as Hvs. simpl in Hvs.
    unfold replace_budgets_rows.
    destruct (tbl_budgets db !! k) as [r|] eqn:Hk.
    + apply replace_rows_untouched; [done|].
      intros u Hu. destruct (Hvs u Hu) as [Hne Hcat]. split; [congruence|].
      unfold same_budget. simpl. intros [E|E]; [congruence|].
      apply Hcat. simpl. by rewrite E.
    + destruct (replace_rows_other (same_budget (collation db)) bvs
                  (tbl_budgets db) k) as [E|E]; [|by rewrite E|done].
      intros (v & -> & Hv)%list_elem_of_fmap. by destruct (Hvs v Hv).
  - intros H.
    pose proof (values_elem_of _ _ _ _ Hc H) as Hvs. simpl in Hvs.
    destruct (tbl_categories db !! k) as [r|] eqn:Hk.
    + apply upsert_categories_rows_untouched; [done|].
      intros u Hu. destruct (Hvs u Hu) as [? Hne]. split; [done|].
      intros E. apply Hne. simpl. by rewrite E.
    + apply upsert_categories_rows_None; [done|].
      intros u Hu E. destruct (Hvs u Hu) as [Hne _]. by rewrite E in Hne.
Qed.

Lemma backup_leaves_unaddressed_rows_witness :
  tbl_budgets (Backup env_ok db_first_budget rent_budget).2 !! "b1"
  = tbl_budgets db_first_budget !! "b1" ∧
  tbl_budgets (Backup env_ok db_first_budget third_budget).2 !! "b1"
  ≠ tbl_budgets db_first_budget !! "b1".
Proof.
  split.
  - apply (backup_leaves_unaddressed_rows env_ok db_first_budget rent_budget
             "b1").
    intros b v Hb Hv. apply list_elem_of_singleton in Hb as ->.
    vm_compute in Hv. injection Hv as <-.
    split; vm_compute; discriminate.
  - vm_compute. discriminate.
Defined.

(** X10. The last write wins in the transactions table: after a Backup
    call that returns, the row under the id of a transaction is the one
    written from it, unless a later transaction of the call has that id,
    as the collation of the table compares ids. *)
Theorem backup_stores_last_transaction_of_id (env : Env) (db db' : Database)
    (data : BackupData.t) (resp : BackupResponse.t)
    (pre post : list Transaction.t) (t : Transaction.t)
    (v : string * transactions.row) :
  Backup env db data = (Return resp, db') →
  BackupData.transactions data = pre ++ t :: post →
  transactions_values t = inr v →
  (∀ t' v', t' ∈ post → transactions_values t' = inr v' →
     collation db v'.1 ≠ collation db v.1) →
  tbl_transactions db' !! v.1 = Some v.2 ∧
  ∀ k r, tbl_transactions db' !! k = Some r →
         collation db k = collation db v.1 → k = v.1.
Proof.
  intros HB Hd Hv Hpost.
  apply Backup_inv in HB as [(_ & _ & _ & Ha)|(e & ? & _)]; [|done].
  rewrite apply_backup_eq, Hd in Ha.
  destruct (values_each _ (pre ++ t :: post)) as [|tvs] eqn:Ht; [done|].
  destruct (values_each _ (BackupData.budgets data)) as [|bvs]; [done|].
  destruct (values_each _ (BackupData.categories data)) as [|cvs]; [done|].
  simpl in Ha. injection Ha as <-. simpl.
  apply values_each_split in Ht as (vpre & v0 & vpost & -> & Hv0 & _ & Hvpost).
  assert (v0 = v) as -> by congruence.
  apply (replace_rows_last (same_transaction (collation db))).
  intros u Hu.
  pose proof (values_elem_of _ _ _ _ Hvpost Hpost u Hu) as Hne. simpl in Hne.
  split; [congruence|done].
Qed.

Lemma backup_stores_last_transaction_of_id_witness :
  tbl_transactions (Backup env_ok no_rows lower_then_upper).2 !! "T1"
  = Some row_jan_upper.2 ∧
  ∀ k r, tbl_transactions (Backup env_ok no_rows lower_then_upper).2 !! k
         = Some r →
         case_insensitive k = case_insensitive "T1" → k = "T1".
Proof.
  destruct (Backup env_ok no_rows lower_then_upper) as [r db'] eqn:HB.
  assert (Hr : r = Return (backup_response lower_then_upper)).
  { change r with (r, db').1. rewrite <- HB. vm_compute. reflexivity. }
  subst r.
  apply (backup_stores_last_transaction_of_id env_ok no_rows db'
           lower_then_upper _ [t_jan] [] t_jan_upper row_jan_upper HB).
  - reflexivity.
  - vm_compute. reflexivity.
  - intros t' v' Ht'. by apply elem_of_nil in Ht'.
Defined.

(** X11. The primary keys and the unique indexes of [init_database] hold
    in every state that Backup calls reach from empty tables, whatever the
    snapshots and the environments of the calls: in no table do two stored
    ids collide, no two stored budgets have the same category and no two
    stored categories have the same name, ids, categories and names
    compared as the collation of the tables compares them. *)
Theorem unique_keys_hold (db : Database) :
  reachable db → keys_unique db.
Proof.
  induction 1 as [key|env db data _ IH].
  - apply keys_unique_empty.
  - by apply Backup_keys_unique.
Qed.

Lemma unique_keys_hold_witness :
  keys_unique (Backup env_ok (Backup env_ok no_rows first_budget).2
                 third_budget).2.
Proof.
  apply (unique_keys_hold
           (Backup env_ok (Backup env_ok no_rows first_budget).2
              third_budget).2).
  apply reachable_Backup, reachable_Backup, (reachable_empty case_insensitive).
Defined.

(** X12. Every row a Backup call leaves in the tables was stored before
    the call or is written from a record of the call: a transaction or a
    budget with all its columns, a category with its name, type and
    creation date. *)
Theorem backup_rows_come_from_storage_or_call (env : Env) (db : Database)
    (data : BackupData.t) (k : string) :
  (∀ r, tbl_transactions (Backup env db data).2 !! k = Some r →
     tbl_transactions db !! k = Some r
     ∨ ∃ t, t ∈ BackupData.transactions data ∧ transactions_values t = inr (k, r)) ∧
  (∀ r, tbl_budgets (Backup env db data).2 !! k = Some r →
     tbl_budgets db !! k = Some r
     ∨ ∃ b, b ∈ BackupData.budgets data ∧ budgets_values b = inr (k, r)) ∧
  (∀ r, tbl_categories (Backup env db data).2 !! k = Some r →
     (∃ r0, tbl_categories db !! k = Some r0
            ∧ r = categories.set_icon (categories.icon r) r0)
     ∨ ∃ c r0, c ∈ BackupData.categories data
               ∧ categories_values c = inr (k, r0)
               ∧ r = categories.set_icon (categories.icon r) r0).
Proof.
  destruct (Backup_storage env db data)
    as [->|(tvs & bvs & cvs & Ht & Hb & Hc & ->)].
  { split; [eauto|]. split; [eauto|]. intros r Hr. left. exists r.
    split; [done|]. by destruct r. }
  apply values_each_elem in Ht as (_ & Ht & _).
  apply values_each_elem in Hb as (_ & Hb & _).
  apply values_each_elem in Hc as (_ & Hc & _).
  simpl. split; [|split]; intros r Hr.
  - apply replace_rows_origin in Hr as [Hin|Hm]; [|by left].
    right. by apply Ht.
  - apply replace_rows_origin in Hr as [Hin|Hm]; [|by left].
    right. by apply Hb.
  - apply upsert_categories_rows_origin in Hr
      as [(r0 & Hm & E)|([k0 r0] & Hu & Hk & E)]; [left; eauto|].
    right. simpl in Hk, E. subst k0.
    destruct (Hc _ Hu) as (c & Hin & Hv). eauto.
Qed.

Lemma backup_rows_come_from_storage_or_call_witness :
  tbl_budgets db_first_budget !! "b3" = Some third_budget_row
  ∨ ∃ b, b ∈ BackupData.budgets third_budget
         ∧ budgets_values b = inr ("b3", third_budget_row).
Proof.
  apply (backup_rows_come_from_storage_or_call env_ok db_first_budget
           third_budget "b3").
  vm_compute. reflexivity.
Defined.

(** ** Restore *)

(** X13. Once [get_db_connection] has handed out a connection, Restore
    raises the driver's error for a connection that is not available when
    the link is down as the cursor is asked for, before its [try]; with
    the cursor in hand it returns the three tables as they are stored when
    the link holds for its three queries, and raises an HTTPException with
    status 500 and the driver's message behind "Restore failed: " when the
    link breaks at one of them. Storage is the same afterwards in every
    case. *)
Theorem restore_returns_or_reports_link_break (env : Env) (db : Database) :
  obtains_connection env = true →
  Restore env db
  = (if link_up env 0 then
       if link_up env 1 && link_up env 2 && link_up env 3
       then Return (restore_response db)
       else Raise (HTTPException 500 ("Restore failed: " +:+ link_error env))
     else Raise (Error ConnectionNotAvailable),
     db).
Proof.
  unfold obtains_connection. intros Hc.
  apply andb_prop in Hc as [Hc Hi]. apply andb_prop in Hc as [Hv Hs].
  unfold Restore, request, restore.
  unfold mbind at 1, M_bind at 1. rewrite get_db_connection_eq, Hv, Hs, Hi.
  simpl. unfold restore_try, execute_fetchall, round_trip. munfold. simpl.
  destruct (link_up env 0); simpl; [|done].
  destruct (link_up env 1); simpl; [|done].
  destruct (link_up env 2); simpl; [|done].
  destruct (link_up env 3); simpl; done.
Qed.

Lemma restore_returns_or_reports_link_break_witness :
  Restore env_link_breaks db_two_dates
  = (Raise (HTTPException 500 ("Restore failed: " +:+ lost)), db_two_dates) ∧
  Restore env_no_cursor db_two_dates
  = (Raise (Error ConnectionNotAvailable), db_two_dates).
Proof.
  split.
  - exact (restore_returns_or_reports_link_break env_link_breaks db_two_dates
             eq_refl).
  - exact (restore_returns_or_reports_link_break env_no_cursor db_two_dates
             eq_refl).
Defined.

(** X14. What Restore returns holds every stored row once, under its
    id: the three lists have no id twice, and a row is in a list exactly
    when it is stored in the table of that list. *)
Theorem restore_returns_each_stored_row_once (env : Env) (db db' : Database)
    (resp : RestoreResponse.t) :
  Restore env db = (Return resp, db') →
  (NoDup (RestoreResponse.transactions resp).*1 ∧
   ∀ k r, (k, r) ∈ RestoreResponse.transactions resp
          ↔ tbl_transactions db !! k = Some r) ∧
  (NoDup (RestoreResponse.budgets resp).*1 ∧
   ∀ k r, (k, r) ∈ RestoreResponse.budgets resp
          ↔ tbl_budgets db !! k = Some r) ∧
  (NoDup (RestoreResponse.categories resp).*1 ∧
   ∀ k r, (k, r) ∈ RestoreResponse.categories resp
          ↔ tbl_categories db !! k = Some r).
Proof.
  intros H. apply Restore_inv in H as [_ [(H & _)|(e & ?)]]; [|done].
  injection H as ->. unfold restore_response. simpl.
  split; [|split].
  - split.
    + unfold select_transactions_order_by_date_desc.
      rewrite merge_sort_Permutation. apply NoDup_fst_map_to_list.
    + intros k r. apply (elem_of_select_transactions db (k, r)).
  - split; [apply NoDup_fst_map_to_list|].
    intros k r. apply elem_of_map_to_list.
  - split; [apply NoDup_fst_map_to_list|].
    intros k r. apply elem_of_map_to_list.
Qed.

Lemma restore_returns_each_stored_row_once_witness :
  NoDup (select_transactions_order_by_date_desc db_two_dates).*1 ∧
  ∀ k r, (k, r) ∈ select_transactions_order_by_date_desc db_two_dates
         ↔ tbl_transactions db_two_dates !! k = Some r.
Proof.
  refine (proj1 (restore_returns_each_stored_row_once env_ok db_two_dates
                   db_two_dates (restore_response db_two_dates) _)).
  apply Restore_healthy. split; [vm_compute; reflexivity|done].
Defined.

(** ** The columns *)

Lemma split_chars_char_length (n : nat) (s : string) :
  (char_length (split_chars n s).1 ≤ n)%nat.
Proof.
  revert n. induction s as [|a s IH]; intros n; simpl; [lia|].
  destruct (is_continuation a) eqn:Ha.
  - specialize (IH n). destruct (split_chars n s) as [keep rest]. simpl in *.
    rewrite Ha. lia.
  - destruct n as [|n]; simpl; [lia|].
    specialize (IH n). destruct (split_chars n s) as [keep rest]. simpl in *.
    rewrite Ha. lia.
Qed.

Lemma varchar_fits n column s s' : varchar n column s = inr s' → holds n s' = true.
Proof.
  unfold varchar, holds.
  destruct (char_length s <=? n)%nat eqn:E; [by intros [= <-]|].
  pose proof (split_chars_char_length n s) as Hk.
  destruct (split_chars n s) as [keep rest]. simpl in Hk.
  destruct (all_spaces rest); [|done]. intros [= <-].
  by apply Nat.leb_le.
Qed.

Lemma varchar_null_fits n column s s' :
  varchar_null n column s = inr s' → holds_null n s' = true.
Proof.
  destruct s as [v|]; simpl; [|by intros [= <-]].
  destruct (varchar n column v) as [|v'] eqn:E; simpl; [done|].
  intros [= <-]. simpl. by apply varchar_fits in E.
Qed.

Lemma length_substring_0 (n : nat) (s : string) :
  (String.length (String.substring 0 n s) ≤ n)%nat.
Proof.
  revert s. induction n as [|n IH]; intros [|a s]; simpl; try lia.
  specialize (IH s). lia.
Qed.

Lemma text_fits column s s' : text column s = inr s' → holds_text s' = true.
Proof.
  destruct s as [v|]; simpl; [|by intros [= <-]].
  destruct (String.length v <=? text_limit)%nat eqn:E; [by intros [= <-]|].
  destruct (all_spaces _); [|done]. intros [= <-]. simpl.
  apply Nat.leb_le, length_substring_0.
Qed.

Lemma decimal_10_2_fits column x c :
  decimal_10_2 column x = inr c → (Z.abs c <=? 9999999999)%Z = true.
Proof.
  destruct x as [q|]; simpl; [|done].
  destruct (Z.abs _ <=? _)%Z eqn:E; [|done]. by intros [= <-].
Qed.

Lemma int_fits column n n' : int column n = inr n' → holds_int n' = true.
Proof.
  unfold int, holds_int. destruct (_ && _) eqn:E; [|done]. by intros [= <-].
Qed.

Ltac fit_step H E :=
  match type of H with
  | fit_bind ?c _ = inr _ =>
      destruct c eqn:E; simpl in H; [discriminate H|]
  end.

Lemma transactions_values_ok t v :
  transactions_values t = inr v → transactions_row_ok v.1 v.2 = true.
Proof.
  unfold transactions_values. intros H. fit_step H E0.
  fit_step H E1. fit_step H E2. fit_step H E3. fit_step H E4. fit_step H E5.
  fit_step H E6. fit_step H E7. fit_step H E8. fit_step H E9.
  injection H as <-. unfold transactions_row_ok. simpl.
  rewrite (varchar_fits _ _ _ _ E1), (varchar_fits _ _ _ _ E2),
    (varchar_fits _ _ _ _ E3), (varchar_fits _ _ _ _ E4),
    (decimal_10_2_fits _ _ _ E5), (text_fits _ _ _ E6),
    (varchar_fits _ _ _ _ E7), (varchar_fits _ _ _ _ E8), (int_fits _ _ _ E9).
  done.
Qed.

Lemma budgets_values_ok b v :
  budgets_values b = inr v → budgets_row_ok v.1 v.2 = true.
Proof.
  unfold budgets_values. intros H. fit_step H E0.
  fit_step H E1. fit_step H E2. fit_step H E3. fit_step H E4. fit_step H E5.
  injection H as <-. unfold budgets_row_ok. simpl.
  rewrite (varchar_fits _ _ _ _ E1), (varchar_fits _ _ _ _ E2),
    (decimal_10_2_fits _ _ _ E3),
    (varchar_fits _ _ _ _ E4), (varchar_fits _ _ _ _ E5).
  done.
Qed.

Lemma categories_values_ok c v :
  categories_values c = inr v → categories_row_ok v.1 v.2 = true.
Proof.
  unfold categories_values. intros H.
  fit_step H E1. fit_step H E2. fit_step H E3. fit_step H E4. fit_step H E5.
  injection H as <-. unfold categories_row_ok. simpl.
  rewrite (varchar_fits _ _ _ _ E1), (varchar_fits _ _ _ _ E2),
    (varchar_fits _ _ _ _ E3), (varchar_null_fits _ _ _ _ E4),
    (varchar_fits _ _ _ _ E5).
  done.
Qed.

Lemma set_icon_ok k i r r' :
  categories_row_ok k r = true → categories_row_ok k r' = true →
  i = categories.icon r' →
  categories_row_ok k (categories.set_icon i r) = true.
Proof.
  unfold categories_row_ok. destruct r, r'. simpl. intros H H' ->.
  repeat (apply andb_prop in H as [H ?]).
  repeat (apply andb_prop in H' as [H' ?]).
  repeat (apply andb_true_intro; split); done.
Qed.

Lemma categories_row_ok_key k k' r :
  categories_row_ok k r = true → holds 36 k' = true →
  categories_row_ok k' r = true.
Proof.
  unfold categories_row_ok. intros H Hk.
  repeat (apply andb_prop in H as [H ?]).
  repeat (apply andb_true_intro; split); done.
Qed.

Lemma categories_row_ok_holds k r :
  categories_row_ok k r = true → holds 36 k = true.
Proof.
  unfold categories_row_ok. intros H.
  by repeat (apply andb_prop in H as [H ?]).
Qed.

Lemma upsert_categories_row_ok key v (m : gmap string categories.row) :
  (∀ k r, m !! k = Some r → categories_row_ok k r = true) →
  categories_row_ok v.1 v.2 = true →
  ∀ k r, upsert_categories_row key v m !! k = Some r →
         categories_row_ok k r = true.
Proof.
  intros Hm Hv k r Hk.
  apply upsert_categories_row_origin in Hk as Ho.
  destruct Ho as [(r0 & H0 & E)|(-> & -> & _)]; [|done].
  rewrite upsert_categories_row_lookup in Hk.
  destruct (decide (k = target key v m)) as [->|Hne].
  - rewrite H0 in Hk. injection Hk as <-.
    eapply set_icon_ok; [by eapply Hm| |done].
    eapply categories_row_ok_key; [exact Hv|].
    eapply categories_row_ok_holds. by eapply Hm.
  - rewrite H0 in Hk. injection Hk as <-. by eapply Hm.
Qed.

Lemma upsert_categories_rows_ok key vs (m : gmap string categories.row) :
  (∀ k r, m !! k = Some r → categories_row_ok k r = true) →
  (∀ v, v ∈ vs → categories_row_ok v.1 v.2 = true) →
  ∀ k r, upsert_categories_rows key vs m !! k = Some r →
         categories_row_ok k r = true.
Proof.
  revert m. induction vs as [|v vs IH]; intros m Hm Hvs; [done|].
  rewrite upsert_categories_rows_cons. apply IH.
  - apply upsert_categories_row_ok; [done|]. apply Hvs. by left.
  - intros u Hu. apply Hvs. by right.
Qed.

(** X15. In every state that Backup calls reach from the empty tables,
    each stored value is within its column of [init_database]: ids of at
    most 36 characters, dates of at most 10, categories and names of at
    most 100, types of at most 10, icons of at most 50, timestamps of at
    most 20, descriptions of at most 65535 bytes, amounts and limits of at
    most ten digits in hundredths, [synced] a signed 32-bit integer. *)
Theorem stored_rows_fit_their_columns (db : Database) :
  reachable db → well_typed db.
Proof.
  induction 1 as [key|env db data _ (IHt & IHb & IHc)].
  - split; [|split]; intros k r H; simpl in H; by rewrite lookup_empty in H.
  - destruct (Backup_storage env db data)
      as [->|(tvs & bvs & cvs & Ht & Hb & Hc & ->)]; [done|].
    split; [|split]; simpl.
    + intros k r Hr.
      apply replace_rows_origin in Hr as [Hin|Hm]; [|by apply IHt].
      apply values_each_elem in Ht as (_ & Ht & _).
      destruct (Ht _ Hin) as (t & _ & Hv).
      by apply transactions_values_ok in Hv.
    + intros k r Hr.
      apply replace_rows_origin in Hr as [Hin|Hm]; [|by apply IHb].
      apply values_each_elem in Hb as (_ & Hb & _).
      destruct (Hb _ Hin) as (b & _ & Hv).
      by apply budgets_values_ok in Hv.
    + apply upsert_categories_rows_ok; [done|].
      intros v Hin. apply values_each_elem in Hc as (_ & Hc & _).
      destruct (Hc _ Hin) as (c & _ & Hv).
      by apply categories_values_ok in Hv.
Qed.

Lemma stored_rows_fit_their_columns_witness :
  well_typed (Backup env_ok (Backup env_ok no_rows full_snapshot).2
                three_categories).2.
Proof.
  apply (stored_rows_fit_their_columns
           (Backup env_ok (Backup env_ok no_rows full_snapshot).2
              three_categories).2).
  apply reachable_Backup, reachable_Backup, (reachable_empty case_insensitive).
Defined.




(** ** The start of the process *)

Lemma Startup_eq (env : Env) (s : Schema) :
  Startup env s =
    if vars_present env then
      if server_accepts env then
        if is_connected env then
          if link_up env 0 then
            if link_up env 1 then
              if link_up env 2 then
                if link_up env 3 then
                  if link_up env 4 then (Return (), initialized s)
                  else (Raise (initialization_failed env), initialized s)
                else (Raise (initialization_failed env),
                      create_budgets (create_transactions s))
              else (Raise (initialization_failed env), create_transactions s)
            else (Raise (initialization_failed env), s)
          else (Raise (Error ConnectionNotAvailable), s)
        else (Raise (AttributeError
                      "'NoneType' object has no attribute 'cursor'"), s)
      else (Raise (HTTPException 500
                    ("Database connection failed: " +:+ connect_error env)), s)
    else (Raise (HTTPException 500
                  ("Missing required environment variables: "
                   +:+ join ", " (List.filter (not_getenv env) required_vars))),
          s).
Proof.
  unfold Startup, startup_event, init_database.
  unfold mbind at 1, IM_bind at 1. unfold mbind at 1, IM_bind at 1.
  unfold lift at 1. simpl. rewrite get_db_connection_eq.
  destruct (vars_present env); [|done].
  destruct (server_accepts env); [|done].
  destruct (is_connected env); [|done].
  simpl. unfold try_finally_in, try_except_in, init_database_try,
    execute_definition, alter_schema, lift, commit, round_trip.
  unfold mbind, IM_bind, M_bind. munfold. simpl.
  destruct (link_up env 0); simpl; [|done].
  destruct (link_up env 1); simpl; [|done].
  destruct (link_up env 2); simpl; [|done].
  destruct (link_up env 3); simpl; [|done].
  destruct (link_up env 4); simpl; done.
Qed.

Lemma link_holds_5 (env : Env) :
  link_holds env 5
  ↔ link_up env 0 = true ∧ link_up env 1 = true ∧ link_up env 2 = true
    ∧ link_up env 3 = true ∧ link_up env 4 = true.
Proof.
  split.
  - intros H. repeat split; apply H; lia.
  - intros (H0 & H1 & H2 & H3 & H4) i Hi.
    destruct i as [|[|[|[|[|i]]]]]; try done. lia.
Qed.

Lemma startup_tables_exist (env : Env) (s s' : Schema) :
  Startup env s = (Return (), s') →
  ∃ key t b c, s' = mkSchema key (Some t) (Some b) (Some c).
Proof.
  rewrite Startup_eq.
  destruct (vars_present env); [|done].
  destruct (server_accepts env); [|done].
  destruct (is_connected env); [|done].
  destruct (link_up env 0); [|done].
  destruct (link_up env 1); [|done].
  destruct (link_up env 2); [|done].
  destruct (link_up env 3); [|done].
  destruct (link_up env 4); [|done].
  intros [= <-]. unfold initialized. simpl. eauto.
Qed.

(** X17. The start of the process returns exactly when
    [get_db_connection] hands out a connection and the link holds for the
    cursor, the three [CREATE TABLE IF NOT EXISTS] and the commit; the
    three tables then exist, those that were missing are empty and the
    others hold the rows they held, so that the handlers work on the rows
    the server had. *)
Theorem startup_creates_the_missing_tables (env : Env) (s s' : Schema) :
  Startup env s = (Return (), s')
  ↔ obtains_connection env = true ∧ link_holds env 5
    ∧ s' = initialized s ∧ serves s' = Some (rows s).
Proof.
  rewrite Startup_eq, link_holds_5. unfold obtains_connection.
  destruct (vars_present env); simpl; [|split; [done|by intros [? _]]].
  destruct (server_accepts env); simpl; [|split; [done|by intros [? _]]].
  destruct (is_connected env); simpl; [|split; [done|by intros [? _]]].
  destruct (link_up env 0); [|split; [done|by intros (_ & (? & _) & _)]].
  destruct (link_up env 1); [|split; [done|by intros (_ & (_ & ? & _) & _)]].
  destruct (link_up env 2); [|split; [done|by intros (_ & (_ & _ & ? & _) & _)]].
  destruct (link_up env 3);
    [|split; [done|by intros (_ & (_ & _ & _ & ? & _) & _)]].
  destruct (link_up env 4);
    [|split; [done|by intros (_ & (_ & _ & _ & _ & ?) & _)]].
  split.
  - intros [= <-]. repeat split; done.
  - by intros (_ & _ & -> & _).
Qed.

Lemma startup_creates_the_missing_tables_witness :
  serves (Startup env_ok only_budgets_table).2
  = Some (mkDatabase case_insensitive ∅ (tbl_budgets db_first_budget) ∅).
Proof.
  destruct (Startup env_ok only_budgets_table) as [r s'] eqn:H.
  assert (Hr : r = Return ()).
  { change r with (r, s').1. rewrite <- H. vm_compute. reflexivity. }
  subst r.
  apply (startup_creates_the_missing_tables env_ok only_budgets_table s') in H
    as (_ & _ & _ & H).
  exact H.
Defined.

(** X18. Whatever the environment and the outcome, the start of the
    process loses no row, adds none and drops no table. *)
Theorem startup_keeps_tables_and_rows (env : Env) (s : Schema) :
  rows (Startup env s).2 = rows s ∧
  (is_Some (transactions_table s) →
   is_Some (transactions_table (Startup env s).2)) ∧
  (is_Some (budgets_table s) → is_Some (budgets_table (Startup env s).2)) ∧
  (is_Some (categories_table s) → is_Some (categories_table (Startup env s).2)).
Proof.
  rewrite Startup_eq.
  destruct (vars_present env); [|done].
  destruct (server_accepts env); [|done].
  destruct (is_connected env); [|done].
  destruct (link_up env 0); [|done].
  destruct s as [key t b c].
  destruct (link_up env 1); [|done].
  destruct (link_up env 2); [|by destruct t; simpl; eauto].
  destruct (link_up env 3); [|by destruct t, b; simpl; eauto].
  destruct (link_up env 4); by destruct t, b, c; simpl; eauto.
Qed.

Lemma startup_keeps_tables_and_rows_witness :
  is_Some (budgets_table (Startup env_link_breaks only_budgets_table).2).
Proof.
  apply (startup_keeps_tables_and_rows env_link_breaks only_budgets_table).
  vm_compute. eauto.
Defined.

(** X19. When the link is down during [init_database], the start of the
    process raises: the driver's error for a connection that is not
    available when the cursor is asked for, before the [try]; after that,
    an HTTPException with status 500 and the driver's message behind
    "Database initialization failed: ". The tables created before the
    break stay: nothing undoes a [CREATE TABLE]. *)
Theorem startup_reports_link_break (env : Env) (s : Schema) (i : nat) :
  obtains_connection env = true →
  (i < 5)%nat →
  link_up env i = false →
  (Startup env s).1
  = (if link_up env 0 then Raise (initialization_failed env)
     else Raise (Error ConnectionNotAvailable)) ∧
  (link_holds env 2 → is_Some (transactions_table (Startup env s).2)) ∧
  (link_holds env 3 → is_Some (budgets_table (Startup env s).2)) ∧
  (link_holds env 4 → is_Some (categories_table (Startup env s).2)).
Proof.
  unfold obtains_connection. intros Hc Hi Hdown.
  apply andb_prop in Hc as [Hc Hic]. apply andb_prop in Hc as [Hv Hs].
  rewrite Startup_eq, Hv, Hs, Hic.
  assert (H0 : ∀ n, link_holds env (S n) → link_up env 0 = true)
    by (intros n H; apply H; lia).
  assert (H1 : ∀ n, link_holds env (S (S n)) → link_up env 1 = true)
    by (intros n H; apply H; lia).
  assert (H2 : ∀ n, link_holds env (S (S (S n))) → link_up env 2 = true)
    by (intros n H; apply H; lia).
  assert (H3 : link_holds env 4 → link_up env 3 = true)
    by (intros H; apply H; lia).
  destruct (link_up env 0) eqn:E0.
  2:{ split; [done|]. repeat split; intros H; apply H0 in H; congruence. }
  destruct (link_up env 1) eqn:E1.
  2:{ split; [done|]. repeat split; intros H; apply H1 in H; congruence. }
  destruct (link_up env 2) eqn:E2.
  2:{ split; [done|]. split; [simpl; eauto|].
      split; intros H; apply H2 in H; congruence. }
  destruct (link_up env 3) eqn:E3.
  2:{ split; [done|]. split; [simpl; eauto|]. split; [simpl; eauto|].
      intros H. apply H3 in H. congruence. }
  destruct (link_up env 4) eqn:E4.
  - destruct i as [|[|[|[|[|i]]]]]; try congruence. lia.
  - split; [done|]. simpl. eauto.
Qed.

Lemma startup_reports_link_break_witness :
  ((Startup env_link_breaks_late only_budgets_table).1
   = Raise (HTTPException 500 ("Database initialization failed: " +:+ lost))
   ∧ is_Some (transactions_table
                (Startup env_link_breaks_late only_budgets_table).2)) ∧
  (Startup env_no_cursor only_budgets_table).1
  = Raise (Error ConnectionNotAvailable).
Proof.
  split.
  - destruct (startup_reports_link_break env_link_breaks_late
                only_budgets_table 2) as (Hr & Ht & _).
    + vm_compute. reflexivity.
    + lia.
    + reflexivity.
    + split; [exact Hr|]. apply Ht.
      intros j Hj. destruct j as [|[|j]]; [reflexivity|reflexivity|lia].
  - apply (startup_reports_link_break env_no_cursor only_budgets_table 0).
    + vm_compute. reflexivity.
    + lia.
    + reflexivity.
Defined.

(** X20. Once a start of the process has returned, a later start, in
    whatever environment and with whatever outcome, leaves every table
    and every row as it is. *)
Theorem startup_after_startup_changes_nothing (env env' : Env) (s s' : Schema) :
  Startup env s = (Return (), s') →
  (Startup env' s').2 = s'.
Proof.
  intros H. apply startup_tables_exist in H as (key & t & b & c & ->).
  rewrite Startup_eq.
  destruct (vars_present env'); [|done].
  destruct (server_accepts env'); [|done].
  destruct (is_connected env'); [|done].
  destruct (link_up env' 0); [|done].
  destruct (link_up env' 1); [|done].
  destruct (link_up env' 2); [|done].
  destruct (link_up env' 3); [|done].
  destruct (link_up env' 4); done.
Qed.

Lemma startup_after_startup_changes_nothing_witness :
  (Startup env_link_breaks (initialized only_budgets_table)).2
  = initialized only_budgets_table.
Proof.
  apply (startup_after_startup_changes_nothing env_ok env_link_breaks
           only_budgets_table (initialized only_budgets_table)).
  vm_compute. reflexivity.
Defined.
